(** * lockit-mongodb-adapter: the user-record adapter over a document store

    A shallow embedding of [index.js] (the adapter: [save], [find],
    [update], [remove] and the index set-up of its constructor) and of the
    older variant of the same adapter, together with executable models of
    the collaborators the adapter calls: the document collection, the
    duration parser [ms], the clock behind [moment()], the token generator
    [uuid.v4] and the credential hasher.

    JavaScript objects are finite maps from property names to values, the
    collection is the list of its documents in insertion order, callbacks
    are the value an operation hands to [done], and every source of
    nondeterminism (clock, random bytes, entropy, fresh primary keys) is an
    oracle threaded through a small state monad. *)

From Stdlib Require Import ZArith String Ascii List Bool Lia.
From stdpp Require Import base option list strings gmap fin_maps.

Local Open Scope string_scope.
Local Open Scope Z_scope.

(** ** JavaScript values and documents *)

(** The scalar values that occur in user documents.  A [Date] carries its
    time value in milliseconds since the epoch; [VInvalidDate] is the date
    whose time value is NaN. *)
Inductive value : Type :=
  | VUndefined
  | VNull
  | VBool (b : bool)
  | VNum (n : Z)
  | VStr (s : string)
  | VDate (t : Z)
  | VInvalidDate
  | VObjectId (n : N).

#[global] Instance value_eq_dec : EqDecision value.
Proof. solve_decision. Defined.

(** A document (and a query filter) is an object with scalar fields. *)
Abbreviation doc := (gmap string value).

(** Errors that reach a callback or escape as an exception. *)
Inductive Error : Type :=
  | DuplicateKey (index : string)
  | HashingFailure
  | LockitError (message : string)
  | TypeError (message : string)
  | DriverError (message : string).

#[global] Instance Error_eq_dec : EqDecision Error.
Proof. solve_decision. Defined.

(** ** The document collection

    The store is a collaborator outside the sources: the driver's
    collection with the operations the adapter calls ([findOne], [save],
    [remove], [createIndex], [dropIndex]).  Filters are the equality
    filters the adapter builds, one plain field name against one value;
    query operators are not part of the model. *)

Module Mongo.

(** A collection: its documents in natural order and the fields that
    carry a unique index (the index on [_id] is implicit). *)
Record Collection : Type := mkCollection {
  docs : list doc;
  uniqueIdx : list string
}.

#[global] Instance Collection_eq_dec : EqDecision Collection.
Proof. solve_decision. Defined.

(** What a write hands to its callback on success.  Only an insert
    reports the inserted documents in [ops]: the caller's own objects,
    not the stored copies. *)
Record WriteResult : Type := mkWriteResult {
  ops : option (list doc);
  n : nat
}.

(** What the wire format makes of a value: [undefined] is written as
    [null], and a date whose time value is NaN as the date of time value
    0.  Stored values and the values of a filter both go through it. *)
Definition canon (v : value) : value :=
  match v with
  | VUndefined => VNull
  | VInvalidDate => VDate 0
  | _ => v
  end.

(** JavaScript truthiness. *)
Definition truthy (v : value) : bool :=
  match v with
  | VUndefined | VNull => false
  | VBool b => b
  | VNum n => negb (n =? 0)
  | VStr s => negb (bool_decide (s = EmptyString))
  | VDate _ | VInvalidDate | VObjectId _ => true
  end.

(** The serializer reads a property [toBSON] of the object it is handed
    as a conversion method: when the property is truthy and no function
    (no value of the model is one), it throws before anything is sent. *)
Definition serializable (o : doc) : bool :=
  negb (truthy (default VUndefined (o !! "toBSON"))).

Definition not_a_function : Error := DriverError "toBSON is not a function".

(** The document as the collection holds it once written. *)
Definition stored (d : doc) : doc := canon <$> d.

(** The key of document [d] under field [f]: a missing field counts as
    [null]. *)
Definition key (f : string) (d : doc) : value :=
  canon (default VNull (d !! f)).

(** Equality filter: every field of the filter [q] equals the field of
    the document. *)
Definition matches (q : doc) (d : doc) : bool :=
  forallb (fun kv => bool_decide (key kv.1 d = canon kv.2)) (map_to_list q).

Definition findOne (q : doc) (c : Collection) : option doc :=
  List.find (matches q) (docs c).

(** The first unique index that [d] would violate against [others]. *)
Definition clash (f : string) (d : doc) (others : list doc) : bool :=
  existsb (fun d' => bool_decide (key f d' = key f d)) others.

Definition violated (idx : list string) (d : doc) (others : list doc)
  : option string :=
  List.find (fun f => clash f d others) ("_id" :: idx).

Definition has_id (v : value) (d : doc) : bool :=
  bool_decide (key "_id" d = canon v).

(** Replace the first document whose [_id] is [v]. *)
Fixpoint replace_id (v : value) (d : doc) (l : list doc) : list doc :=
  match l with
  | [] => []
  | d' :: l' => if has_id v d' then d :: l' else d' :: replace_id v d l'
  end.

Definition insertOne (d : doc) (c : Collection)
  : option Error * option WriteResult * Collection :=
  match violated (uniqueIdx c) d (docs c) with
  | Some f => (Some (DuplicateKey f), None, c)
  | None =>
      (None, Some (mkWriteResult (Some [d]) 1),
       mkCollection (docs c ++ [stored d]) (uniqueIdx c))
  end.

(** [updateOne({_id: v}, d, {upsert: true})]: replace the document with
    that [_id], or insert [d] when there is none. *)
Definition upsert (v : value) (d : doc) (c : Collection)
  : option Error * option WriteResult * Collection :=
  let others := List.filter (fun d' => negb (has_id v d')) (docs c) in
  match violated (uniqueIdx c) d others with
  | Some f => (Some (DuplicateKey f), None, c)
  | None =>
      if existsb (has_id v) (docs c)
      then (None, Some (mkWriteResult None 1),
            mkCollection (replace_id v (stored d) (docs c)) (uniqueIdx c))
      else (None, Some (mkWriteResult None 1),
            mkCollection (docs c ++ [stored d]) (uniqueIdx c))
  end.

(** [remove(q)] deletes every matching document and reports how many. *)
Definition remove (q : doc) (c : Collection)
  : option Error * nat * Collection :=
  (None,
   length (List.filter (matches q) (docs c)),
   mkCollection (List.filter (fun d => negb (matches q d)) (docs c))
                (uniqueIdx c)).

Definition has_duplicates (f : string) (l : list doc) : bool :=
  negb (bool_decide (NoDup (map (key f) l))).

(** [createIndex({f: 1}, {unique: true})]: the build fails, and leaves
    the collection as it was, when two documents share a key. *)
Definition createIndex (f : string) (c : Collection) : Collection :=
  if bool_decide (f ∈ uniqueIdx c) then c
  else if has_duplicates f (docs c) then c
  else mkCollection (docs c) (uniqueIdx c ++ [f]).

Definition dropIndex (f : string) (c : Collection) : Collection :=
  mkCollection (docs c)
               (List.filter (fun g => negb (bool_decide (g = f))) (uniqueIdx c)).

End Mongo.

(** ** The duration parser [ms]

    A collaborator outside the sources.  [ms(str)] reads a count followed
    by an optional unit, ignoring case, and returns the duration in
    milliseconds, or [undefined] ([None]) when the string has another
    shape.  The embedding covers two kinds of string: the integral ones,
    [\d+ *unit?], on which it returns the duration (exactly, as long as
    the product stays below 2^53; beyond that the library rounds to the
    nearest floating-point number), and the non-empty ones that start
    with neither a digit nor a dot, on which the library returns
    [undefined].  Outside these the library computes in floating point
    (a decimal fraction such as [1.5h]) or throws (the empty string);
    the embedding answers [None] there, and no statement below rests on
    that answer: a statement that depends on the parser either
    assumes its result ([ms ... = Some d]) or takes a string of the
    second kind. *)

Module Ms.

Definition s : Z := 1000.
Definition m : Z := s * 60.
Definition h : Z := m * 60.
Definition d : Z := h * 24.
Definition y : Z := 31557600000.  (* d * 365.25 *)

Definition is_digit (c : ascii) : bool :=
  let k := nat_of_ascii c in (48 <=? k)%nat && (k <=? 57)%nat.

Definition digit_val (c : ascii) : Z := Z.of_nat (nat_of_ascii c) - 48.

(** Leading decimal digits of a string, as a number, and the rest. *)
Fixpoint digits (acc : Z) (k : nat) (str : string) : Z * nat * string :=
  match str with
  | String c rest =>
      if is_digit c then digits (10 * acc + digit_val c) (S k) rest
      else (acc, k, str)
  | EmptyString => (acc, k, str)
  end.

Fixpoint skip_spaces (str : string) : string :=
  match str with
  | String " " rest => skip_spaces rest
  | _ => str
  end.

Definition lower (c : ascii) : ascii :=
  let k := nat_of_ascii c in
  if (65 <=? k)%nat && (k <=? 90)%nat then ascii_of_nat (k + 32) else c.

Fixpoint toLowerCase (str : string) : string :=
  match str with
  | String c rest => String (lower c) (toLowerCase rest)
  | EmptyString => EmptyString
  end.

Definition unit_factor (type : string) : option Z :=
  if bool_decide (type ∈ ["years"; "year"; "yrs"; "yr"; "y"]) then Some y
  else if bool_decide (type ∈ ["days"; "day"; "d"]) then Some d
  else if bool_decide (type ∈ ["hours"; "hour"; "hrs"; "hr"; "h"]) then Some h
  else if bool_decide (type ∈ ["minutes"; "minute"; "mins"; "min"; "m"]) then Some m
  else if bool_decide (type ∈ ["seconds"; "second"; "secs"; "sec"; "s"]) then Some s
  else if bool_decide (type ∈ ["milliseconds"; "millisecond"; "msecs"; "msec"; "ms"])
       then Some 1
  else None.

Definition parse (str : string) : option Z :=
  if (10000 <? Z.of_nat (String.length str))%Z then None
  else
    match digits 0 0 str with
    | (_, O, _) => None
    | (count, _, rest) =>
        let type := toLowerCase (skip_spaces rest) in
        match type with
        | EmptyString => Some count
        | _ => f ← unit_factor type; Some (count * f)
        end
    end.

End Ms.

Definition ms : string -> option Z := Ms.parse.

(** ** The token generator [uuid.v4]

    A collaborator outside the sources.  Sixteen random bytes, with the version and variant bits of RFC 4122
    section 4.4 forced, printed as lower-case hexadecimal in the groups
    8-4-4-4-12. *)

Module Uuid.

(** Byte [i] of the random draw [r]. *)
Definition byte_at (r : Z) (i : nat) : Z :=
  Z.land (Z.shiftr r (8 * Z.of_nat i)) 255.

Definition rng (r : Z) : list Z := map (byte_at r) (seq 0 16).

Definition hex_digit (k : Z) : ascii :=
  match String.get (Z.to_nat k) "0123456789abcdef" with
  | Some c => c
  | None => "0"%char
  end.

Definition byteToHex (b : Z) : string :=
  String (hex_digit (b / 16)) (String (hex_digit (b mod 16)) EmptyString).

Definition bth (buf : list Z) (i : nat) : string :=
  byteToHex (nth i buf 0).

Definition unparse (buf : list Z) : string :=
  bth buf 0 ++ bth buf 1 ++ bth buf 2 ++ bth buf 3 ++ "-" ++
  bth buf 4 ++ bth buf 5 ++ "-" ++
  bth buf 6 ++ bth buf 7 ++ "-" ++
  bth buf 8 ++ bth buf 9 ++ "-" ++
  bth buf 10 ++ bth buf 11 ++ bth buf 12 ++
  bth buf 13 ++ bth buf 14 ++ bth buf 15.

Definition v4 (r : Z) : string :=
  let rnds := rng r in
  let rnds := <[6%nat := Z.lor (Z.land (nth 6 rnds 0) 15) 64]> rnds in
  let rnds := <[8%nat := Z.lor (Z.land (nth 8 rnds 0) 63) 128]> rnds in
  unparse rnds.



(** The shape of a version-4 token: 36 characters, dashes at the group
    boundaries, version digit [4], variant digit in [8..b]. *)
Definition is_v4 (t : string) : bool :=
  (String.length t =? 36)%nat
  && bool_decide (String.get 8 t = Some "-"%char)
  && bool_decide (String.get 13 t = Some "-"%char)
  && bool_decide (String.get 18 t = Some "-"%char)
  && bool_decide (String.get 23 t = Some "-"%char)
  && bool_decide (String.get 14 t = Some "4"%char)
  && match String.get 19 t with
     | Some c => bool_decide (c ∈ ["8"; "9"; "a"; "b"]%char)
     | None => false
     end.

End Uuid.

(** ** The environment: oracles for everything the adapter cannot decide *)

(** The [k]-th reading of the clock, the [k]-th draw of sixteen random
    bytes, the [k]-th request for salt entropy ([None]: the entropy source
    failed), the [k]-th fresh primary key, and the key-derivation function
    of the hasher. *)
Record Env : Type := mkEnv {
  clock : nat -> Z;
  random : nat -> Z;
  entropy : nat -> option string;
  primaryKey : nat -> N;
  derive : string -> string -> string
}.

(** The state an operation runs in: the collection behind the shared
    [db] handle and how far each oracle has been consumed. *)
Record World : Type := mkWorld {
  store : Mongo.Collection;
  env : Env;
  clockReads : nat;
  randomDraws : nat;
  entropyDraws : nat;
  keysIssued : nat
}.

Definition M (A : Type) : Type := World -> A * World.

#[global] Instance M_ret : MRet M := fun A a w => (a, w).
#[global] Instance M_bind : MBind M :=
  fun A B f c w => let (a, w') := c w in f a w'.

Definition with_store (c : Mongo.Collection) (w : World) : World :=
  mkWorld c (env w) (clockReads w) (randomDraws w) (entropyDraws w) (keysIssued w).

(** [moment()]: the current instant. *)
Definition moment : M Z := fun w =>
  (clock (env w) (clockReads w),
   mkWorld (store w) (env w) (S (clockReads w)) (randomDraws w)
           (entropyDraws w) (keysIssued w)).

(** The largest time value a [Date] can hold. *)
Definition maxTime : Z := 8640000000000000.

(** [new Date(t)] *)
Definition toDate (t : Z) : value :=
  if Z.abs t <=? maxTime then VDate t else VInvalidDate.

(** [m.add(timespan, 'ms')] on the instant [t]; an [undefined] amount adds
    nothing. *)
Definition add (timespan : option Z) (t : Z) : Z := t + default 0 timespan.

Definition uuid_v4 : M string := fun w =>
  (Uuid.v4 (random (env w) (randomDraws w)),
   mkWorld (store w) (env w) (clockReads w) (S (randomDraws w))
           (entropyDraws w) (keysIssued w)).

Definition createPk : M N := fun w =>
  (primaryKey (env w) (keysIssued w),
   mkWorld (store w) (env w) (clockReads w) (randomDraws w)
           (entropyDraws w) (S (keysIssued w))).

(** ** The credential hasher *)

Module Hasher.

(** Modelled from the spec: the hasher library is not part of the
    sources.  [hash(plaintext) -> (salt, derivedHash)] draws a fresh
    random salt and applies the derivation, which is deterministic given
    the salt; a failure of the entropy source is a [HashingFailure]. *)
Definition hash (plaintext : string) : M (Error + string * string) := fun w =>
  let w' := mkWorld (store w) (env w) (clockReads w) (randomDraws w)
                    (S (entropyDraws w)) (keysIssued w) in
  match entropy (env w) (entropyDraws w) with
  | None => (inl HashingFailure, w')
  | Some salt => (inr (salt, derive (env w) plaintext salt), w')
  end.

End Hasher.

(** ** The driver's view of the collection *)

(** Lifting of the collection operations to the shared handle.  A call
    into the driver either throws while its argument is serialized
    ([inl]), or reaches the store and hands the result to the callback
    ([inr]). *)
Definition db_findOne (q : doc) : M (Error + option Error * option doc) := fun w =>
  if Mongo.serializable q then (inr (None, Mongo.findOne q (store w)), w)
  else (inl Mongo.not_a_function, w).

(** The filters of [remove] hold the one field [name] (or [username]),
    which the serializer accepts. *)
Definition db_remove (q : doc) : M (option Error * nat) := fun w =>
  let '(err, k, c) := Mongo.remove q (store w) in ((err, k), with_store c w).

(** Whether the insert of [collection.save] gives the document a fresh
    [_id]: the current driver does when the property is [undefined] (or
    missing) and inserts a [null] identifier as it is; the older driver
    replaces a [null] one too. *)
Definition lacks_id (older : bool) (d : doc) : bool :=
  match d !! "_id" with
  | None | Some VUndefined => true
  | Some VNull => older
  | Some _ => false
  end.

(** [collection.save(doc, cb)]: an upsert by [_id] when [doc._id != null],
    an insert otherwise.  The insert gives the caller's object its fresh
    [_id] before the document is serialized: the third component is that
    object after the call. *)
Definition collection_save (older : bool) (d : doc)
  : M (Error + option Error * option Mongo.WriteResult * doc) := fun w =>
  match Mongo.canon (default VNull (d !! "_id")) with
  | VNull =>
      let (d', w1) :=
        if lacks_id older d
        then let (pk, w1) := createPk w in (<["_id" := VObjectId pk]> d, w1)
        else (d, w) in
      if Mongo.serializable d'
      then let '(err, r, c) := Mongo.insertOne d' (store w1) in
           (inr (err, r, d'), with_store c w1)
      else (inl Mongo.not_a_function, w1)
  | v =>
      if Mongo.serializable d
      then let '(err, r, c) := Mongo.upsert v d (store w) in
           (inr (err, r, d), with_store c w)
      else (inl Mongo.not_a_function, w)
  end.

Definition db_save : doc -> M (Error + option Error * option Mongo.WriteResult * doc) :=
  collection_save false.

(** ** The adapter *)

(** The options the adapter reads from the Lockit configuration. *)
Record Config : Type := mkConfig {
  uniqueName : bool;
  useExtra : bool;
  signup_tokenExpiration : string
}.

(** What an operation does with its callback: it calls [done(err, res)],
    or an exception escapes and [done] is never called. *)
Inductive jsval : Type :=
  | JUndefined
  | JNull
  | JTrue
  | JNum (k : Z)
  | JDoc (d : doc).

Inductive Outcome : Type :=
  | Done (err : option Error) (res : jsval)
  | Uncaught (e : Error).

#[global] Instance jsval_eq_dec : EqDecision jsval.
Proof. solve_decision. Defined.

#[global] Instance Outcome_eq_dec : EqDecision Outcome.
Proof. solve_decision. Defined.

(** [o[k] = v], a property assignment on a plain object.  The key
    [__proto__] is the accessor inherited from [Object.prototype];
    assigning a scalar to it stores no property. *)
Definition set_prop (k : string) (v : value) (o : doc) : doc :=
  if bool_decide (k = "__proto__") then o else <[k := v]> o.

(** The double-quote character, as a string. *)
Definition quote : string := String "034" EmptyString.

Definition of_found (o : option doc) : jsval :=
  match o with Some d => JDoc d | None => JNull end.

Section Operations.

Variable config : Config.

(** The constructor, as it leaves the database once the connection is
    open: the index set-up. *)
Definition Adapter (database : Mongo.Collection) : Mongo.Collection :=
  let database :=
    if uniqueName config then Mongo.createIndex "name" database
    else Mongo.dropIndex "name" database in
  Mongo.createIndex "email" database.

(** [result.ops[0]] is evaluated before [done] is called: with no write
    result, or one without [ops], the property access throws. *)
Definition save (name email pw : string) (extra : value) : M Outcome :=
  now ← moment;
  let timespan := ms (signup_tokenExpiration config) in
  later ← moment;
  let future := add timespan later in
  token ← uuid_v4;
  let user : doc :=
    <["failedLoginAttempts" := VNum 0]> (
    <["signupTokenExpires" := toDate future]> (
    <["signupTimestamp" := toDate now]> (
    <["signupToken" := VStr token]> (
    <["email" := VStr email]> (
    <["name" := VStr name]> ∅))))) in
  let user := if useExtra config then <["extra" := extra]> user else user in
  h ← Hasher.hash pw;
  match h with
  | inl err => mret (Done (Some err) JUndefined)
  | inr (salt, hash) =>
      let user := <["derived_key" := VStr hash]> (<["salt" := VStr salt]> user) in
      saved ← db_save user;
      match saved with
      | inl e => mret (Uncaught e)
      | inr (saveErr, result, _) =>
          match result with
          | None => mret (Uncaught (TypeError "Cannot read property 'ops' of null"))
          | Some r =>
              match Mongo.ops r with
              | None => mret (Uncaught (TypeError "Cannot read property '0' of undefined"))
              | Some (d :: _) => mret (Done saveErr (JDoc d))
              | Some [] => mret (Done saveErr JUndefined)
              end
          end
      end
  end.

(** [find] also logs the query to the console, which no caller can
    observe through the callback. *)
Definition find (match_ query : string) : M Outcome :=
  let qry : doc := set_prop match_ (VStr query) ∅ in
  found ← db_findOne qry;
  match found with
  | inl e => mret (Uncaught e)
  | inr (err, user) => mret (Done err (of_found user))
  end.

(** The re-read uses [user._id] as it is after [save], which has given
    the object an identifier if it had none. *)
Definition update (user : doc) : M Outcome :=
  saved ← db_save user;
  match saved with
  | inl e => mret (Uncaught e)
  | inr (err, _, user) =>
      match err with
      | Some e => mret (Done (Some e) JUndefined)
      | None =>
          found ← db_findOne (<["_id" := default VUndefined (user !! "_id")]> ∅);
          match found with
          | inl e => mret (Uncaught e)
          | inr (err, found) => mret (Done err (of_found found))
          end
      end
  end.

Definition remove (name : string) : M Outcome :=
  '(err, k) ← db_remove (<["name" := VStr name]> ∅);
  match err with
  | Some e => mret (Done (Some e) JUndefined)
  | None =>
      if (k =? 0)%nat
      then mret (Done (Some (LockitError
              ("lockit - Cannot find user " ++ quote ++ name ++ quote))) JUndefined)
      else mret (Done None JTrue)
  end.

End Operations.

(** ** The older variant of the adapter

    The same four operations over the earlier driver interface: [save]
    hands the inserted document itself to its callback, [remove] hands the
    number of removed documents, the handle is stored under [username] and
    the bcrypt string (which carries its own salt) under [hash].  This
    variant sets up no index. *)

Module Legacy.

(** [bcrypt.hash(pw, rounds, cb)]: one string holding salt and digest. *)
Definition bcrypt_hash (pw : string) (rounds : nat) : M (Error + string) :=
  h ← Hasher.hash pw;
  match h with
  | inl err => mret (inl err)
  | inr (salt, hash) => mret (inr (salt ++ hash))
  end.

(** The earlier driver's [save]: an insert replaces a [null] identifier
    by a fresh one, and the callback receives the stored document after
    an insert, the count 1 after an upsert, and [null] with an error. *)
Definition db_save (d : doc) : M (Error + option Error * jsval * doc) :=
  saved ← collection_save true d;
  match saved with
  | inl e => mret (inl e)
  | inr (err, r, d') =>
      match err with
      | Some e => mret (inr (Some e, JNull, d'))
      | None =>
          match r ≫= Mongo.ops with
          | Some _ => mret (inr (None, JDoc d', d'))
          | None => mret (inr (None, JNum 1, d'))
          end
      end
  end.

Section Operations.

Variable config : Config.

Definition save (name email pw : string) : M Outcome :=
  now ← moment;
  let timespan := ms (signup_tokenExpiration config) in
  later ← moment;
  let future := add timespan later in
  token ← uuid_v4;
  let user : doc :=
    <["failedLoginAttempts" := VNum 0]> (
    <["signupTokenExpires" := toDate future]> (
    <["signupTimestamp" := toDate now]> (
    <["signupToken" := VStr token]> (
    <["email" := VStr email]> (
    <["username" := VStr name]> ∅))))) in
  h ← bcrypt_hash pw 10;
  match h with
  | inl err => mret (Done (Some err) JUndefined)
  | inr hash =>
      let user := <["hash" := VStr hash]> user in
      saved ← db_save user;
      match saved with
      | inl e => mret (Uncaught e)
      | inr (err, res, _) => mret (Done err res)
      end
  end.

Definition find (match_ query : string) : M Outcome :=
  let qry : doc := set_prop match_ (VStr query) ∅ in
  found ← db_findOne qry;
  match found with
  | inl e => mret (Uncaught e)
  | inr (err, user) => mret (Done err (of_found user))
  end.

(** A failed write is only logged: the re-read happens all the same. *)
Definition update (user : doc) : M Outcome :=
  saved ← db_save user;
  match saved with
  | inl e => mret (Uncaught e)
  | inr (_, _, user) =>
      found ← db_findOne (<["_id" := default VUndefined (user !! "_id")]> ∅);
      match found with
      | inl e => mret (Uncaught e)
      | inr (err, found) => mret (Done err (of_found found))
      end
  end.

Definition remove (username : string) : M Outcome :=
  '(err, numberOfRemovedDocs) ← db_remove (<["username" := VStr username]> ∅);
  match err with
  | Some e => mret (Done (Some e) JUndefined)
  | None =>
      if (numberOfRemovedDocs =? 0)%nat
      then mret (Done (Some (LockitError
              ("lockit - Cannot find user " ++ quote ++ username ++ quote))) JUndefined)
      else mret (Done None JTrue)
  end.

End Operations.

End Legacy.

(** The document's field [f] holds the string [s]. *)
Definition field_is (f s : string) (d : doc) : bool :=
  bool_decide (d !! f = Some (VStr s)).

Fixpoint has_dot (k : string) : bool :=
  match k with
  | String "." _ => true
  | String _ rest => has_dot rest
  | EmptyString => false
  end.

(** The property names that neither JavaScript nor the driver gives a
    meaning of its own: not the prototype accessor, and not the property
    the serializer reads as a conversion method. *)
Definition plain_key (k : string) : bool :=
  negb (bool_decide (k = "__proto__")) && negb (bool_decide (k = "toBSON")).

(** The strings that name a field of a stored document: plain property
    names that are neither an operator name nor a dotted path of the
    store's query language. *)
Definition field_name (k : string) : bool :=
  plain_key k
  && match k with String "$" _ => false | _ => true end
  && negb (has_dot k).

(** The offset between the two dates of a record. *)
Definition expiry_offset (r : doc) (offset : Z) : Prop :=
  exists stamp expires,
    r !! "signupTimestamp" = Some (VDate stamp)
    /\ r !! "signupTokenExpires" = Some (VDate expires)
    /\ expires - stamp = offset.

(** The documents the store model speaks about: every key names a
    field. *)
Definition storable (d : doc) : Prop :=
  map_Forall (fun k _ => field_name k = true) d.

(** ** Sequences of adapter calls *)

Inductive Op : Type :=
  | OpSave (name email pw : string) (extra : value)
  | OpFind (match_ query : string)
  | OpUpdate (user : doc)
  | OpRemove (name : string).

Definition run_op (config : Config) (op : Op) : M Outcome :=
  match op with
  | OpSave name email pw extra => save config name email pw extra
  | OpFind match_ query => find match_ query
  | OpUpdate user => update user
  | OpRemove name => remove name
  end.

(** The outcomes of a sequence of calls, each one run to completion, and
    the world after the last. *)
Fixpoint run_ops (config : Config) (l : list Op) (w : World)
  : list Outcome * World :=
  match l with
  | [] => ([], w)
  | op :: rest =>
      let (o, w1) := run_op config op w in
      let (os, w2) := run_ops config rest w1 in
      (o :: os, w2)
  end.

(** The record [collection.save] writes for [user]: [user] itself, or
    [user] under the next fresh primary key when the driver gives it
    one. *)
Definition written_by (older : bool) (user : doc) (w : World) : doc :=
  if lacks_id older user
  then <["_id" := VObjectId (primaryKey (env w) (keysIssued w))]> user
  else user.

(** The record [update] writes for [user]. *)
Definition written (user : doc) (w : World) : doc := written_by false user w.

(** The record invariants of the data model: the token expires strictly
    after the sign-up instant, and the failed-login counter is a
    non-negative number. *)
Definition record_ok (d : doc) : bool :=
  match d !! "signupTimestamp", d !! "signupTokenExpires",
        d !! "failedLoginAttempts" with
  | Some (VDate stamp), Some (VDate expires), Some (VNum attempts) =>
      (stamp <? expires) && (0 <=? attempts)
  | _, _, _ => false
  end.

(** The record satisfies the invariants. *)
Definition ok (r : doc) : Prop := record_ok r = true.

(** The number of creates in a sequence of calls.  A create reads the
    clock twice and no other call reads it. *)
Fixpoint saves (l : list Op) : nat :=
  match l with
  | [] => 0
  | OpSave _ _ _ _ :: rest => S (saves rest)
  | _ :: rest => saves rest
  end.

(** The clock at a create whose first reading is the [k]-th: it does not
    run backwards between the two readings of the call, and both dates
    of the record (the sign-up instant, and the expiry [ttl]
    milliseconds after the second reading) are dates a [Date] can
    hold. *)
Definition clock_fair (ttl : Z) (e : Env) (k : nat) : Prop :=
  clock e k <= clock e (S k)
  /\ Z.abs (clock e k) <= maxTime
  /\ Z.abs (clock e (S k) + ttl) <= maxTime.

(** The clock is fair at each of the [n] creates of a run that starts at
    reading [k].  Nothing is asked of the clock between two creates, nor
    after the last. *)
Definition clock_sane (ttl : Z) (e : Env) (k n : nat) : Prop :=
  forall j, (j < n)%nat -> clock_fair ttl e (k + 2 * j).

(** ** A concrete environment, configuration and worlds *)

(** A clock that advances one millisecond per reading (for its first
    thousand readings), all-ones random bytes scaled by the draw number,
    an entropy source that never fails, consecutive primary keys and a
    symbolic derivation. *)
Definition env0 : Env :=
  mkEnv (fun k => 1700000000000 + Z.min (Z.of_nat k) 1000)
        (fun k => 79228162514264337593543950335 * (Z.of_nat k + 1))
        (fun k => Some ("salt" ++ String (ascii_of_nat (48 + k)) EmptyString))
        (fun k => N.of_nat (100 + k))
        (fun pw salt => "pbkdf2(" ++ pw ++ "," ++ salt ++ ")").

(** The same environment with an exhausted entropy source. *)
Definition env_dry : Env :=
  mkEnv (clock env0) (random env0) (fun _ => None) (primaryKey env0) (derive env0).

(** The same environment with a clock that steps back twenty-five hours
    at every reading, and with a clock that stands at the last instant a
    [Date] can hold. *)
Definition env_back : Env :=
  mkEnv (fun k => 1700000000000 - 90000000 * Z.of_nat k)
        (random env0) (entropy env0) (primaryKey env0) (derive env0).

Definition env_late : Env :=
  mkEnv (fun _ => maxTime) (random env0) (entropy env0) (primaryKey env0)
        (derive env0).

Definition config0 : Config := mkConfig true false "24h".

(** A freshly connected adapter over an empty collection. *)
Definition world0 : World :=
  mkWorld (Adapter config0 (Mongo.mkCollection [] [])) env0 0 0 0 0.

Definition world_dry : World :=
  mkWorld (Adapter config0 (Mongo.mkCollection [] [])) env_dry 0 0 0 0.

Definition world_back : World :=
  mkWorld (Adapter config0 (Mongo.mkCollection [] [])) env_back 0 0 0 0.

Definition world_late : World :=
  mkWorld (Adapter config0 (Mongo.mkCollection [] [])) env_late 0 0 0 0.

(** The record [save "alice" "alice@x.com" "s3cret!"] returns in [world0],
    and the world that call leaves behind. *)
Definition alice : doc :=
  <["_id" := VObjectId 100]> (
  <["derived_key" := VStr "pbkdf2(s3cret!,salt0)"]> (
  <["salt" := VStr "salt0"]> (
  <["failedLoginAttempts" := VNum 0]> (
  <["signupTokenExpires" := VDate 1700086400001]> (
  <["signupTimestamp" := VDate 1700000000000]> (
  <["signupToken" := VStr "ffffffff-ffff-4fff-bfff-ffff00000000"]> (
  <["email" := VStr "alice@x.com"]> (
  <["name" := VStr "alice"]> ∅)))))))).

Definition world1 : World :=
  (save config0 "alice" "alice@x.com" "s3cret!" VUndefined world0).2.

(** The record of a second create, for bob, and the world after it. *)
Definition bob : doc :=
  <["_id" := VObjectId 101]> (
  <["derived_key" := VStr "pbkdf2(hunter2,salt1)"]> (
  <["salt" := VStr "salt1"]> (
  <["failedLoginAttempts" := VNum 0]> (
  <["signupTokenExpires" := VDate 1700086400003]> (
  <["signupTimestamp" := VDate 1700000000002]> (
  <["signupToken" := VStr "feffffff-ffff-4fff-bfff-ffff01000000"]> (
  <["email" := VStr "bob@x.com"]> (
  <["name" := VStr "bob"]> ∅)))))))).

Definition world2 : World :=
  (save config0 "bob" "bob@x.com" "hunter2" VUndefined world1).2.

(** A record that breaks both invariants, under an identifier that no
    stored record has. *)
Definition mallory : doc :=
  <["_id" := VObjectId 7]> (
  <["failedLoginAttempts" := VNum (-1)]> (
  <["signupTokenExpires" := VDate 5]> (
  <["signupTimestamp" := VDate 9]> (
  <["email" := VStr "m@x.com"]> (
  <["name" := VStr "mallory"]> ∅))))).

(** ** Well-formed collections *)

(** The collection satisfies its unique indexes, the implicit one on
    [_id] included: no two documents share a key under an indexed field. *)
Definition indexes_hold (c : Mongo.Collection) : Prop :=
  forall f, f ∈ "_id" :: Mongo.uniqueIdx c ->
            NoDup (map (Mongo.key f) (Mongo.docs c)).

(** A document as the store hands it out: it carries an identifier and
    no [undefined]. *)
Definition canonical (d : doc) : Prop :=
  Mongo.stored d = d /\ Mongo.key "_id" d <> VNull.

Definition wf_store (c : Mongo.Collection) : Prop :=
  Forall canonical (Mongo.docs c) /\ indexes_hold c.

(** The same without the demand for identifiers: every document is as
    the store hands it out, and the unique indexes hold.  ([update]
    can store a document under the identifier [null].) *)
Definition sound_store (c : Mongo.Collection) : Prop :=
  Forall (fun d => Mongo.stored d = d) (Mongo.docs c) /\ indexes_hold c.

(** The record the older variant's [save "carol" "carol@x.com" "pw"]
    returns in [world1]. *)
Definition carol : doc :=
  <["_id" := VObjectId 101]> (
  <["hash" := VStr "salt1pbkdf2(pw,salt1)"]> (
  <["failedLoginAttempts" := VNum 0]> (
  <["signupTokenExpires" := VDate 1700086400003]> (
  <["signupTimestamp" := VDate 1700000000002]> (
  <["signupToken" := VStr "feffffff-ffff-4fff-bfff-ffff01000000"]> (
  <["email" := VStr "carol@x.com"]> (
  <["username" := VStr "carol"]> ∅))))))).

(** * Properties *)

(** ** Sanity checks on the concrete worlds *)

Example ms_examples :
  ms "2 Days" = Some 172800000 /\ ms "100" = Some 100 /\ ms "1 y" = Some 31557600000
  /\ ms "h" = None /\ ms "1x" = None.
Proof. vm_compute. repeat split. Qed.

Example v4_example :
  Uuid.v4 79228162514264337593543950335 = "ffffffff-ffff-4fff-bfff-ffff00000000".
Proof. compute_done. Qed.

Example Adapter_example :
  Mongo.uniqueIdx (store world0) = ["name"; "email"].
Proof. compute_done. Qed.

Example save_alice :
  (save config0 "alice" "alice@x.com" "s3cret!" VUndefined world0).1
  = Done None (JDoc alice).
Proof. compute_done. Qed.

Example world1_docs : Mongo.docs (store world1) = [alice].
Proof. compute_done. Qed.

(** ** Facts about the collection *)

Section MongoFacts.

Implicit Types (d q : doc) (f : string) (v : value) (l : list doc).

Lemma matches_singleton f v d :
  Mongo.matches (<[f := v]> ∅) d = bool_decide (Mongo.key f d = Mongo.canon v).
Proof.
  unfold Mongo.matches. rewrite insert_empty, map_to_list_singleton. simpl.
  by rewrite andb_true_r.
Qed.

Lemma key_str f d s : Mongo.key f d = VStr s ↔ d !! f = Some (VStr s).
Proof.
  unfold Mongo.key. destruct (d !! f) as [[]|]; simpl; split; congruence.
Qed.

Lemma matches_field f s d :
  Mongo.matches (<[f := VStr s]> ∅) d = field_is f s d.
Proof.
  rewrite matches_singleton. simpl. apply bool_decide_ext, key_str.
Qed.

Lemma find_none_forall {A} (p : A -> bool) (l : list A) :
  List.find p l = None ↔ Forall (fun x => p x = false) l.
Proof.
  induction l as [|a l IH]; simpl.
  - split; [constructor | done].
  - destruct (p a) eqn:E.
    + split; [done | intros H; inversion H; congruence].
    + rewrite IH. split; [by constructor | by inversion 1].
Qed.

Lemma find_app_fresh {A} (p : A -> bool) (l : list A) (x : A) :
  List.find p l = None -> p x = true -> List.find p (l ++ [x]) = Some x.
Proof.
  induction l as [|a l IH]; simpl; intros Hn Hx.
  - by rewrite Hx.
  - destruct (p a); [done | auto].
Qed.

Lemma filter_none {A} (p : A -> bool) (l : list A) :
  Forall (fun x => p x = false) l ->
  List.filter p l = [] /\ List.filter (fun x => negb (p x)) l = l.
Proof.
  induction 1 as [|a l Ha _ [IH1 IH2]]; simpl; [done|].
  rewrite Ha. simpl. by rewrite IH1, IH2.
Qed.

Lemma filter_some_length {A} (p : A -> bool) (l : list A) (x : A) :
  x ∈ l -> p x = true -> length (List.filter p l) ≠ 0%nat.
Proof.
  induction 1 as [x l|x a l _ IH]; simpl; intros Hx.
  - by rewrite Hx.
  - destruct (p a); [done | auto].
Qed.

(** A write that clashes on a unique index is reported under some
    index. *)
Lemma violated_clash idx d l f :
  f ∈ idx -> Mongo.clash f d l = true -> is_Some (Mongo.violated idx d l).
Proof.
  intros Hf Hc. unfold Mongo.violated.
  destruct (List.find _ _) eqn:E; [by eexists|].
  apply find_none_forall in E. rewrite Forall_forall in E.
  rewrite (E f) in Hc; [done | by right].
Qed.

Lemma clash_intro f d d' l :
  d' ∈ l -> Mongo.key f d' = Mongo.key f d -> Mongo.clash f d l = true.
Proof.
  intros Hin Hk. unfold Mongo.clash. apply existsb_exists.
  exists d'. split; [by apply list_elem_of_In | by apply bool_decide_eq_true].
Qed.

End MongoFacts.

(** ** Facts about stored copies *)

Section StoredFacts.

Implicit Types (d : doc) (f k : string) (v : value).

Lemma canon_idem v : Mongo.canon (Mongo.canon v) = Mongo.canon v.
Proof. by destruct v. Qed.

Lemma stored_insert k v d :
  Mongo.stored (<[k := v]> d) = <[k := Mongo.canon v]> (Mongo.stored d).
Proof. apply fmap_insert. Qed.

Lemma stored_lookup k d : Mongo.stored d !! k = Mongo.canon <$> d !! k.
Proof. apply lookup_fmap. Qed.

Lemma key_stored f d : Mongo.key f (Mongo.stored d) = Mongo.key f d.
Proof.
  unfold Mongo.key. rewrite stored_lookup.
  destruct (d !! f) as [v|]; simpl; [apply canon_idem | done].
Qed.

Lemma has_id_stored v d : Mongo.has_id v (Mongo.stored d) = Mongo.has_id v d.
Proof. unfold Mongo.has_id. by rewrite key_stored. Qed.

Lemma field_is_stored f s d : field_is f s (Mongo.stored d) = field_is f s d.
Proof.
  unfold field_is. apply bool_decide_ext. rewrite stored_lookup.
  destruct (d !! f) as [[]|]; simpl; split; congruence.
Qed.

(** A record that satisfies the invariants holds valid dates, which are
    stored as they are. *)
Lemma record_ok_stored d :
  record_ok d = true -> record_ok (Mongo.stored d) = true.
Proof.
  unfold record_ok. rewrite !stored_lookup.
  destruct (d !! "signupTimestamp") as [[]|]; simpl; try done;
    destruct (d !! "signupTokenExpires") as [[]|]; simpl; try done;
    destruct (d !! "failedLoginAttempts") as [[]|]; simpl; done.
Qed.

(** A document without [undefined] fields and invalid dates is stored as
    it is. *)
Lemma stored_id d :
  (forall k v, d !! k = Some v -> Mongo.canon v = v) -> Mongo.stored d = d.
Proof.
  intros H. apply map_eq. intros k. rewrite stored_lookup.
  destruct (d !! k) as [v|] eqn:E; simpl; [|done]. by rewrite (H k v E).
Qed.

Lemma toDate_valid t : Z.abs t <= maxTime -> toDate t = VDate t.
Proof.
  intros H. unfold toDate. destruct (Z.leb_spec (Z.abs t) maxTime); [done | lia].
Qed.

Lemma canon_toDate t : Z.abs t <= maxTime -> Mongo.canon (toDate t) = toDate t.
Proof. intros H. by rewrite toDate_valid. Qed.

Lemma toDate_cases t : toDate t = VDate t \/ toDate t = VInvalidDate.
Proof. unfold toDate. destruct (_ <=? _); auto. Qed.

End StoredFacts.

(** ** Facts about the token generator *)

Section UuidFacts.

Lemma version_nibble x : Z.lor (Z.land x 15) 64 / 16 = 4.
Proof.
  change 16 with (2 ^ 4). rewrite <- Z.shiftr_div_pow2 by lia.
  rewrite Z.shiftr_lor, Z.shiftr_land.
  change (Z.shiftr 15 4) with 0. change (Z.shiftr 64 4) with 4.
  by rewrite Z.land_0_r.
Qed.

Lemma variant_nibble x :
  let k := Z.lor (Z.land x 63) 128 / 16 in k = 8 \/ k = 9 \/ k = 10 \/ k = 11.
Proof.
  intros k. subst k.
  change 16 with (2 ^ 4). rewrite <- Z.shiftr_div_pow2 by lia.
  rewrite Z.shiftr_lor, Z.shiftr_land.
  change (Z.shiftr 63 4) with (Z.ones 2). change (Z.shiftr 128 4) with 8.
  rewrite Z.land_ones by lia.
  assert (0 <= Z.shiftr x 4 mod 2 ^ 2 < 4) as Hb by (apply Z.mod_pos_bound; lia).
  assert (Z.shiftr x 4 mod 2 ^ 2 = 0 \/ Z.shiftr x 4 mod 2 ^ 2 = 1 \/
          Z.shiftr x 4 mod 2 ^ 2 = 2 \/ Z.shiftr x 4 mod 2 ^ 2 = 3) as Hc by lia.
  destruct Hc as [-> | [-> | [-> | ->]]]; vm_compute; auto.
Qed.

(** Every token the generator prints has the version-4 shape. *)
Lemma v4_is_v4 r : Uuid.is_v4 (Uuid.v4 r) = true.
Proof.
  unfold Uuid.is_v4.
  assert (String.length (Uuid.v4 r) = 36%nat) as -> by reflexivity.
  assert (String.get 8 (Uuid.v4 r) = Some "-"%char) as -> by reflexivity.
  assert (String.get 13 (Uuid.v4 r) = Some "-"%char) as -> by reflexivity.
  assert (String.get 18 (Uuid.v4 r) = Some "-"%char) as -> by reflexivity.
  assert (String.get 23 (Uuid.v4 r) = Some "-"%char) as -> by reflexivity.
  assert (String.get 14 (Uuid.v4 r)
          = Some (Uuid.hex_digit (Z.lor (Z.land (Uuid.byte_at r 6) 15) 64 / 16)))
    as -> by reflexivity.
  assert (String.get 19 (Uuid.v4 r)
          = Some (Uuid.hex_digit (Z.lor (Z.land (Uuid.byte_at r 8) 63) 128 / 16)))
    as -> by reflexivity.
  rewrite version_nibble.
  destruct (variant_nibble (Uuid.byte_at r 8)) as [-> | [-> | [-> | ->]]];
    vm_compute; reflexivity.
Qed.












End UuidFacts.

(** ** What [save] does, case by case *)

(** A document without [_id] and without [toBSON] is inserted under a
    fresh primary key, by either driver. *)
Lemma collection_save_fresh older (d : doc) w :
  d !! "_id" = None -> d !! "toBSON" = None ->
  collection_save older d w
  = (let d' := <["_id" := VObjectId (primaryKey (env w) (keysIssued w))]> d in
     let '(err, r, c) := Mongo.insertOne d' (store w) in
     (inr (err, r, d'),
      mkWorld c (env w) (clockReads w) (randomDraws w) (entropyDraws w)
              (S (keysIssued w)))).
Proof.
  intros Hid Hto. unfold collection_save, lacks_id, Mongo.serializable.
  rewrite Hid. simpl. rewrite lookup_insert_ne by done. rewrite Hto. simpl.
  by destruct (Mongo.insertOne _ _) as [[err r] c].
Qed.

(** The three ways a create ends: the hasher fails, the store rejects the
    insert, or the record is stored and returned. *)
Lemma save_cases config name email pw extra w :
  let t1 := clock (env w) (clockReads w) in
  let t2 := clock (env w) (S (clockReads w)) in
  let token := Uuid.v4 (random (env w) (randomDraws w)) in
  let pk := primaryKey (env w) (keysIssued w) in
  let user : doc :=
    <["failedLoginAttempts" := VNum 0]> (
    <["signupTokenExpires" := toDate (add (ms (signup_tokenExpiration config)) t2)]> (
    <["signupTimestamp" := toDate t1]> (
    <["signupToken" := VStr token]> (
    <["email" := VStr email]> (
    <["name" := VStr name]> ∅))))) in
  let user := if useExtra config then <["extra" := extra]> user else user in
  match entropy (env w) (entropyDraws w) with
  | None =>
      save config name email pw extra w =
      (Done (Some HashingFailure) JUndefined,
       mkWorld (store w) (env w) (S (S (clockReads w))) (S (randomDraws w))
               (S (entropyDraws w)) (keysIssued w))
  | Some salt =>
      let user :=
        <["_id" := VObjectId pk]> (
        <["derived_key" := VStr (derive (env w) pw salt)]> (
        <["salt" := VStr salt]> user)) in
      match Mongo.violated (Mongo.uniqueIdx (store w)) user (Mongo.docs (store w)) with
      | Some f =>
          save config name email pw extra w =
          (Uncaught (TypeError "Cannot read property 'ops' of null"),
           mkWorld (store w) (env w) (S (S (clockReads w))) (S (randomDraws w))
                   (S (entropyDraws w)) (S (keysIssued w)))
      | None =>
          save config name email pw extra w =
          (Done None (JDoc user),
           mkWorld (Mongo.mkCollection (Mongo.docs (store w) ++ [Mongo.stored user])
                                       (Mongo.uniqueIdx (store w)))
                   (env w) (S (S (clockReads w))) (S (randomDraws w))
                   (S (entropyDraws w)) (S (keysIssued w)))
      end
  end.
Proof.
  intros t1 t2 token pk user0 user.
  unfold save, mbind, M_bind, mret, M_ret, moment, uuid_v4, Hasher.hash. simpl.
  fold t1 t2 token user0. fold user.
  destruct (entropy (env w) (entropyDraws w)) as [salt|]; [|reflexivity].
  unfold db_save. rewrite collection_save_fresh.
  - cbn zeta. fold pk. unfold Mongo.insertOne.
    destruct (Mongo.violated _ _ _); reflexivity.
  - subst user user0. destruct (useExtra config); by simplify_map_eq.
  - subst user user0. destruct (useExtra config); by simplify_map_eq.
Qed.

Lemma legacy_save_cases config name email pw w :
  let t1 := clock (env w) (clockReads w) in
  let t2 := clock (env w) (S (clockReads w)) in
  let token := Uuid.v4 (random (env w) (randomDraws w)) in
  let pk := primaryKey (env w) (keysIssued w) in
  let user : doc :=
    <["failedLoginAttempts" := VNum 0]> (
    <["signupTokenExpires" := toDate (add (ms (signup_tokenExpiration config)) t2)]> (
    <["signupTimestamp" := toDate t1]> (
    <["signupToken" := VStr token]> (
    <["email" := VStr email]> (
    <["username" := VStr name]> ∅))))) in
  match entropy (env w) (entropyDraws w) with
  | None =>
      Legacy.save config name email pw w =
      (Done (Some HashingFailure) JUndefined,
       mkWorld (store w) (env w) (S (S (clockReads w))) (S (randomDraws w))
               (S (entropyDraws w)) (keysIssued w))
  | Some salt =>
      let user :=
        <["_id" := VObjectId pk]> (
        <["hash" := VStr (salt ++ derive (env w) pw salt)]> user) in
      match Mongo.violated (Mongo.uniqueIdx (store w)) user (Mongo.docs (store w)) with
      | Some f =>
          Legacy.save config name email pw w =
          (Done (Some (DuplicateKey f)) JNull,
           mkWorld (store w) (env w) (S (S (clockReads w))) (S (randomDraws w))
                   (S (entropyDraws w)) (S (keysIssued w)))
      | None =>
          Legacy.save config name email pw w =
          (Done None (JDoc user),
           mkWorld (Mongo.mkCollection (Mongo.docs (store w) ++ [Mongo.stored user])
                                       (Mongo.uniqueIdx (store w)))
                   (env w) (S (S (clockReads w))) (S (randomDraws w))
                   (S (entropyDraws w)) (S (keysIssued w)))
      end
  end.
Proof.
  intros t1 t2 token pk user.
  unfold Legacy.save, Legacy.bcrypt_hash, mbind, M_bind, mret, M_ret, moment,
    uuid_v4, Hasher.hash. simpl.
  fold t1 t2 token user.
  destruct (entropy (env w) (entropyDraws w)) as [salt|]; [|reflexivity].
  unfold Legacy.db_save, mbind, M_bind, mret, M_ret.
  rewrite collection_save_fresh.
  - cbn zeta. fold pk. unfold Mongo.insertOne.
    destruct (Mongo.violated _ _ _); reflexivity.
  - subst user. by simplify_map_eq.
  - subst user. by simplify_map_eq.
Qed.

(** ** Index set-up *)

Lemma createIndex_elem f g c :
  g ∈ Mongo.uniqueIdx c -> g ∈ Mongo.uniqueIdx (Mongo.createIndex f c).
Proof.
  intros Hg. unfold Mongo.createIndex.
  repeat case_match; simpl; auto. apply elem_of_app. by left.
Qed.

Lemma createIndex_new f c :
  Mongo.has_duplicates f (Mongo.docs c) = false ->
  f ∈ Mongo.uniqueIdx (Mongo.createIndex f c).
Proof.
  intros Hd. unfold Mongo.createIndex. rewrite Hd.
  case_bool_decide; simpl; [done|]. apply elem_of_app. right. by left.
Qed.

Lemma createIndex_docs f c : Mongo.docs (Mongo.createIndex f c) = Mongo.docs c.
Proof. unfold Mongo.createIndex. by repeat case_match. Qed.

(** Once connected over a collection free of duplicates, the adapter has
    the unique index on [email], and the one on [name] when the
    configuration asks for unique names. *)
Lemma Adapter_indexes config database :
  Mongo.has_duplicates "email" (Mongo.docs database) = false ->
  "email" ∈ Mongo.uniqueIdx (Adapter config database)
  /\ (uniqueName config = true ->
      Mongo.has_duplicates "name" (Mongo.docs database) = false ->
      "name" ∈ Mongo.uniqueIdx (Adapter config database)).
Proof.
  intros He. unfold Adapter. split.
  - apply createIndex_new. destruct (uniqueName config); simpl; [|done].
    by rewrite createIndex_docs.
  - intros -> Hn. by apply createIndex_elem, createIndex_new.
Qed.

(** ** Creation *)

(** C5: when the credential hashing step of a create fails, create hands
    that hashing error to its callback and writes nothing: the stored
    collection is the one from before the call.  Both variants.  (The
    clock readings and the token draw that precede the hashing step do
    not touch the entropy source, so the step fails in the world of the
    call exactly when it fails where create runs it.) *)
Theorem save_hashing_failure config name email pw extra w e :
  (Hasher.hash pw w).1 = inl e ->
  (save config name email pw extra w).1 = Done (Some e) JUndefined
  /\ store (save config name email pw extra w).2 = store w
  /\ (Legacy.save config name email pw w).1 = Done (Some e) JUndefined
  /\ store (Legacy.save config name email pw w).2 = store w.
Proof.
  intros Hh. unfold Hasher.hash in Hh.
  pose proof (save_cases config name email pw extra w) as Hs.
  pose proof (legacy_save_cases config name email pw w) as Hl.
  simpl in Hs, Hl.
  destruct (entropy (env w) (entropyDraws w)) as [salt|]; [discriminate|].
  simpl in Hh. injection Hh as <-.
  rewrite Hs, Hl. done.
Qed.

Lemma save_hashing_failure_witness :
  (save config0 "alice" "alice@x.com" "s3cret!" VUndefined world_dry).1
    = Done (Some HashingFailure) JUndefined
  /\ store (save config0 "alice" "alice@x.com" "s3cret!" VUndefined world_dry).2
     = store world_dry.
Proof.
  destruct (save_hashing_failure config0 "alice" "alice@x.com" "s3cret!"
              VUndefined world_dry HashingFailure) as (H1 & H2 & _).
  - reflexivity.
  - split; [exact H1 | exact H2].
Defined.

(** C2 (the code at a duplicate): when the collection holds a record with
    the same email under the unique index on [email] (or the same name
    under the unique index on [name]), the store rejects the insert and
    leaves the collection unchanged, but [save] then reads [ops] from the
    absent write result: a [TypeError] escapes and the callback never
    receives the duplicate-key error. *)
Theorem save_duplicate_uncaught config name email pw extra w d0 f :
  f ∈ Mongo.uniqueIdx (store w) ->
  d0 ∈ Mongo.docs (store w) ->
  (f = "email" /\ d0 !! "email" = Some (VStr email))
  \/ (f = "name" /\ d0 !! "name" = Some (VStr name)) ->
  is_Some (entropy (env w) (entropyDraws w)) ->
  (save config name email pw extra w).1
    = Uncaught (TypeError "Cannot read property 'ops' of null")
  /\ store (save config name email pw extra w).2 = store w.
Proof.
  intros Hf Hd Hdup [salt Hsalt].
  pose proof (save_cases config name email pw extra w) as Hs.
  simpl in Hs. rewrite Hsalt in Hs.
  match type of Hs with
  | match Mongo.violated ?i ?u ?l with _ => _ end =>
      destruct (violated_clash i u l f Hf) as [g Hg]
  end.
  - apply clash_intro with d0; [done|].
    destruct Hdup as [[-> Hk] | [-> Hk]].
    + apply key_str in Hk. rewrite Hk. symmetry. apply key_str.
      destruct (useExtra config); by simplify_map_eq.
    + apply key_str in Hk. rewrite Hk. symmetry. apply key_str.
      destruct (useExtra config); by simplify_map_eq.
  - rewrite Hg in Hs. rewrite Hs. by destruct w.
Qed.

Lemma save_duplicate_uncaught_witness :
  (save config0 "bob" "alice@x.com" "hunter2" VUndefined world1).1
    = Uncaught (TypeError "Cannot read property 'ops' of null")
  /\ store (save config0 "bob" "alice@x.com" "hunter2" VUndefined world1).2
     = store world1.
Proof.
  apply (save_duplicate_uncaught config0 "bob" "alice@x.com" "hunter2"
           VUndefined world1 alice "email").
  - compute_done.
  - compute_done.
  - left. split; compute_done.
  - eexists. reflexivity.
Defined.

(** The older variant passes the store's error on: the same duplicate
    reaches its callback as a duplicate-key error. *)
Lemma legacy_save_duplicate_reported config name email pw w d0 :
  "email" ∈ Mongo.uniqueIdx (store w) ->
  d0 ∈ Mongo.docs (store w) ->
  d0 !! "email" = Some (VStr email) ->
  is_Some (entropy (env w) (entropyDraws w)) ->
  (exists g, (Legacy.save config name email pw w).1 = Done (Some (DuplicateKey g)) JNull)
  /\ store (Legacy.save config name email pw w).2 = store w.
Proof.
  intros Hf Hd Hk [salt Hsalt].
  pose proof (legacy_save_cases config name email pw w) as Hs.
  simpl in Hs. rewrite Hsalt in Hs.
  match type of Hs with
  | match Mongo.violated ?i ?u ?l with _ => _ end =>
      destruct (violated_clash i u l "email" Hf) as [g Hg]
  end.
  - apply clash_intro with d0; [done|].
    apply key_str in Hk. rewrite Hk. symmetry. apply key_str.
    by simplify_map_eq.
  - rewrite Hg in Hs. rewrite Hs. split; [by exists g | by destruct w].
Qed.



(** With [useExtra] on and the payload left out, the returned record
    carries [extra: undefined] and the stored one [extra: null]. *)
Example save_extra_undefined :
  let o := save (mkConfig true true "1h") "carol" "c@x.com" "pw" VUndefined world0 in
  match o.1 with Done None (JDoc r) => r !! "extra" | _ => None end
    = Some VUndefined
  /\ (d ← head (Mongo.docs (store o.2)); d !! "extra") = Some VNull.
Proof. split; compute_done. Qed.

(** C3 as stated fails: with the clock advancing one millisecond between
    the two readings of a create, the record's [signupTokenExpires] minus
    [signupTimestamp] is one millisecond more than the parsed "24h". *)
Lemma save_expiry_not_exact :
  (save config0 "alice" "alice@x.com" "s3cret!" VUndefined world0).1
    = Done None (JDoc alice)
  /\ ms (signup_tokenExpiration config0) = Some 86400000
  /\ expiry_offset alice 86400001
  /\ ~ expiry_offset alice 86400000.
Proof.
  split; [compute_done|]. split; [compute_done|]. split.
  - exists 1700000000000, 1700086400001. repeat split; compute_done.
  - intros (stamp & expires & Hs & He & Hd).
    assert (alice !! "signupTimestamp" = Some (VDate 1700000000000)) as H1
      by compute_done.
    assert (alice !! "signupTokenExpires" = Some (VDate 1700086400001)) as H2
      by compute_done.
    rewrite H1 in Hs. rewrite H2 in He.
    injection Hs as <-. injection He as <-. lia.
Qed.

(** C3 (amended): create reads the clock twice, [t1] for the timestamp and
    [t2] for the expiry.  For a TTL string that parses to [d], and dates in
    range, every record created has [signupTokenExpires - signupTimestamp
    = d + (t2 - t1)]: the parsed duration plus the time that passed
    between the two readings, hence exactly [d] when both readings
    coincide.  The strings "1h", "24h" and "7d" parse to 3600000, 86400000
    and 604800000 milliseconds.  Both variants. *)
Theorem save_expiry_offset config name email pw extra w d :
  ms (signup_tokenExpiration config) = Some d ->
  let t1 := clock (env w) (clockReads w) in
  let t2 := clock (env w) (S (clockReads w)) in
  Z.abs t1 <= maxTime ->
  Z.abs (t2 + d) <= maxTime ->
  (forall r, (save config name email pw extra w).1 = Done None (JDoc r) ->
             expiry_offset r (d + (t2 - t1))
             /\ (t2 = t1 -> expiry_offset r d))
  /\ (forall r, (Legacy.save config name email pw w).1 = Done None (JDoc r) ->
                expiry_offset r (d + (t2 - t1))
                /\ (t2 = t1 -> expiry_offset r d))
  /\ ms "1h" = Some 3600000 /\ ms "24h" = Some 86400000
  /\ ms "7d" = Some 604800000.
Proof.
  intros Hms t1 t2 Hb1 Hb2.
  assert (Hd1 : toDate t1 = VDate t1).
  { by apply toDate_valid. }
  assert (Hd2 : toDate (add (Some d) t2) = VDate (t2 + d)).
  { unfold add. simpl. by apply toDate_valid. }
  assert (Hoff : forall r : doc,
             r !! "signupTimestamp" = Some (VDate t1) ->
             r !! "signupTokenExpires" = Some (VDate (t2 + d)) ->
             expiry_offset r (d + (t2 - t1)) /\ (t2 = t1 -> expiry_offset r d)).
  { intros r H1 H2. split; [|intros Heq];
      exists t1, (t2 + d); repeat split; auto; lia. }
  split; [|split; [|repeat split; compute_done]].
  - intros r Hok.
    pose proof (save_cases config name email pw extra w) as Hs. simpl in Hs.
    rewrite Hms in Hs. fold t1 t2 in Hs. rewrite Hd1, Hd2 in Hs.
    destruct (entropy (env w) (entropyDraws w)) as [salt|];
      [|rewrite Hs in Hok; discriminate].
    destruct (Mongo.violated _ _ _); rewrite Hs in Hok; [discriminate|].
    simpl in Hok. injection Hok as <-.
    apply Hoff; destruct (useExtra config); by simplify_map_eq.
  - intros r Hok.
    pose proof (legacy_save_cases config name email pw w) as Hs. simpl in Hs.
    rewrite Hms in Hs. fold t1 t2 in Hs. rewrite Hd1, Hd2 in Hs.
    destruct (entropy (env w) (entropyDraws w)) as [salt|];
      [|rewrite Hs in Hok; discriminate].
    destruct (Mongo.violated _ _ _); rewrite Hs in Hok; [discriminate|].
    simpl in Hok. injection Hok as <-.
    apply Hoff; by simplify_map_eq.
Qed.

Lemma save_expiry_offset_witness :
  ms (signup_tokenExpiration config0) = Some 86400000
  /\ expiry_offset alice (86400000 + (1700000000001 - 1700000000000)).
Proof.
  split; [compute_done|].
  apply (proj1 (save_expiry_offset config0 "alice" "alice@x.com" "s3cret!"
                  VUndefined world0 86400000
                  ltac:(compute_done) ltac:(compute_done) ltac:(compute_done))
               alice).
  compute_done.
Defined.

(** ** Lookup *)

Lemma find_ext_eq {A} (p q : A -> bool) (l : list A) :
  (forall x, p x = q x) -> List.find p l = List.find q l.
Proof.
  intros H. induction l as [|a l IH]; simpl; [done|]. by rewrite H, IH.
Qed.

Lemma find_unique {A} (p : A -> bool) (l : list A) (x : A) :
  x ∈ l -> p x = true -> (forall y, y ∈ l -> p y = true -> y = x) ->
  List.find p l = Some x.
Proof.
  induction 1 as [x l|x a l Hin IH]; simpl; intros Hx Hu.
  - by rewrite Hx.
  - destruct (p a) eqn:E.
    + f_equal. apply Hu; [left | done].
    + apply IH; [done|]. intros y Hy. apply Hu. by right.
Qed.

Lemma findOne_field f s c :
  Mongo.findOne (<[f := VStr s]> ∅) c
  = List.find (field_is f s) (Mongo.docs c).
Proof. unfold Mongo.findOne. apply find_ext_eq, matches_field. Qed.

Lemma field_name_plain k : field_name k = true -> plain_key k = true.
Proof.
  unfold field_name. intros H. by apply andb_true_iff in H as [[H _]%andb_true_iff _].
Qed.

Lemma plain_key_ne k : plain_key k = true <-> k <> "__proto__" /\ k <> "toBSON".
Proof.
  unfold plain_key.
  rewrite andb_true_iff, !negb_true_iff, !bool_decide_eq_false. done.
Qed.

(** A filter on one plain field passes the serializer. *)
Lemma serializable_singleton k v :
  k <> "toBSON" -> Mongo.serializable (<[k := v]> ∅) = true.
Proof.
  intros Hk. unfold Mongo.serializable.
  by rewrite lookup_insert_ne, lookup_empty.
Qed.

(** What both variants of [find] compute. *)
Lemma find_run match_ query w :
  let qry : doc := set_prop match_ (VStr query) ∅ in
  let result :=
    if Mongo.serializable qry
    then Done None (of_found (Mongo.findOne qry (store w)))
    else Uncaught Mongo.not_a_function in
  find match_ query w = (result, w)
  /\ Legacy.find match_ query w = (result, w).
Proof.
  intros qry result. subst result.
  unfold find, Legacy.find, db_findOne, mbind, M_bind, mret, M_ret. fold qry.
  by destruct (Mongo.serializable qry).
Qed.

(** On a plain field name, the filter holds that one field. *)
Lemma find_cases match_ query w :
  plain_key match_ = true ->
  let lookup := List.find (field_is match_ query) (Mongo.docs (store w)) in
  find match_ query w = (Done None (of_found lookup), w)
  /\ Legacy.find match_ query w = (Done None (of_found lookup), w).
Proof.
  intros [Hp Ht]%plain_key_ne lookup.
  destruct (find_run match_ query w) as [-> ->].
  unfold set_prop. rewrite bool_decide_eq_false_2 by done.
  rewrite serializable_singleton by done.
  by rewrite findOne_field.
Qed.

(** On [__proto__] the filter stays empty, and the first record of the
    collection is found. *)
Lemma find_proto query w :
  find "__proto__" query w = (Done None (of_found (head (Mongo.docs (store w)))), w)
  /\ Legacy.find "__proto__" query w
     = (Done None (of_found (head (Mongo.docs (store w)))), w).
Proof.
  destruct (find_run "__proto__" query w) as [-> ->].
  unfold set_prop. rewrite bool_decide_eq_true_2 by done.
  unfold Mongo.findOne. by destruct (Mongo.docs (store w)).
Qed.

(** On [toBSON] with a non-empty string the serializer throws, and the
    callback is never called. *)
Lemma find_toBSON query w :
  query <> EmptyString ->
  find "toBSON" query w = (Uncaught Mongo.not_a_function, w)
  /\ Legacy.find "toBSON" query w = (Uncaught Mongo.not_a_function, w).
Proof.
  intros Hq. destruct (find_run "toBSON" query w) as [-> ->].
  unfold set_prop. rewrite bool_decide_eq_false_2 by done.
  unfold Mongo.serializable. rewrite lookup_insert_eq. simpl.
  by rewrite bool_decide_eq_false_2.
Qed.

(** C10 as stated fails: no stored record has a field [__proto__], so a
    lookup on that field finds nothing, yet [find("__proto__", ...)]
    returns the first record of the collection; and no stored record has
    a field [toBSON] either, yet [find("toBSON", ...)] performs no
    lookup at all: it throws. *)
Lemma find_proto_returns_first :
  List.find (field_is "__proto__" "no-such-value") (Mongo.docs (store world1)) = None
  /\ (find "__proto__" "no-such-value" world1).1 = Done None (JDoc alice)
  /\ List.find (field_is "toBSON" "no-such-value") (Mongo.docs (store world1)) = None
  /\ (find "toBSON" "no-such-value" world1).1
     = Uncaught (DriverError "toBSON is not a function").
Proof. repeat split; compute_done. Qed.

(** C10 (amended): [find] puts its [match] argument into the filter with
    no restriction to name, email and signupToken: for every string
    [match] that names a field (so also [salt], [derived_key] or [_id])
    it returns the first stored record whose field of that name holds the
    queried string, or [null], and leaves the world as it was; so
    whenever some stored record holds the string in that field, a record
    that does is handed out.  The strings [__proto__] and [toBSON] name
    no field: on the first the filter stays empty and the first record
    of the collection is returned, on the second (with a non-empty
    value) the driver throws before any lookup.  Both variants. *)
Theorem find_any_field match_ query w :
  field_name match_ = true ->
  let lookup := List.find (field_is match_ query) (Mongo.docs (store w)) in
  find match_ query w = (Done None (of_found lookup), w)
  /\ Legacy.find match_ query w = (Done None (of_found lookup), w)
  /\ (forall d, d ∈ Mongo.docs (store w) -> field_is match_ query d = true ->
      exists r, lookup = Some r
                /\ r ∈ Mongo.docs (store w)
                /\ field_is match_ query r = true)
  /\ field_name "salt" = true /\ field_name "derived_key" = true
  /\ field_name "_id" = true
  /\ field_name "__proto__" = false /\ field_name "toBSON" = false
  /\ find "__proto__" query w
     = (Done None (of_found (head (Mongo.docs (store w)))), w)
  /\ (query <> EmptyString ->
      find "toBSON" query w = (Uncaught Mongo.not_a_function, w)).
Proof.
  intros Hk lookup. apply field_name_plain in Hk.
  destruct (find_cases match_ query w Hk) as [Hf Hl]. rewrite Hf, Hl.
  split; [done|]. split; [done|]. split.
  { intros d Hin Hd. subst lookup.
    destruct (List.find _ _) as [r|] eqn:E.
    - apply find_some in E as [Hr Hp]. exists r.
      split; [done|]. split; [by apply list_elem_of_In | done].
    - apply find_none_forall in E. rewrite Forall_forall in E.
      rewrite (E d Hin) in Hd. discriminate. }
  do 5 (split; [reflexivity|]).
  split; [apply find_proto|]. intros Hq. by apply find_toBSON.
Qed.

Lemma find_any_field_witness :
  field_name "derived_key" = true
  /\ find "derived_key" "pbkdf2(s3cret!,salt0)" world1
     = (Done None (of_found (List.find (field_is "derived_key" "pbkdf2(s3cret!,salt0)")
                                       (Mongo.docs (store world1)))), world1).
Proof.
  split; [reflexivity|].
  apply (find_any_field "derived_key" "pbkdf2(s3cret!,salt0)" world1).
  reflexivity.
Defined.

Example find_by_salt : (find "salt" "salt0" world1).1 = Done None (JDoc alice).
Proof. compute_done. Qed.

Example find_by_derived_key :
  (find "derived_key" "pbkdf2(s3cret!,salt0)" world1).1 = Done None (JDoc alice).
Proof. compute_done. Qed.

Example find_by_string_id :
  (find "_id" "u1" (update (<["_id" := VStr "u1"]> ∅) world1).2).1
  = Done None (JDoc (<["_id" := VStr "u1"]> ∅)).
Proof. compute_done. Qed.

(** C8: for every match field among name, email and signupToken and every
    value, [find(match, value)] returns the single record whose field
    holds the value when there is exactly one, and signals not-found by
    calling back with no error and [null] when there is none; it leaves
    the world as it was.  Both variants. *)
Theorem find_single_or_not_found match_ query w :
  match_ ∈ ["name"; "email"; "signupToken"] ->
  (forall d, d ∈ Mongo.docs (store w) -> field_is match_ query d = true ->
     (forall d', d' ∈ Mongo.docs (store w) -> field_is match_ query d' = true ->
                 d' = d) ->
     find match_ query w = (Done None (JDoc d), w)
     /\ Legacy.find match_ query w = (Done None (JDoc d), w))
  /\ ((forall d, d ∈ Mongo.docs (store w) -> field_is match_ query d = false) ->
      find match_ query w = (Done None JNull, w)
      /\ Legacy.find match_ query w = (Done None JNull, w)).
Proof.
  intros Hm.
  assert (Hk : plain_key match_ = true).
  { repeat (apply elem_of_cons in Hm as [->|Hm]; [done|]).
    by apply elem_of_nil in Hm. }
  destruct (find_cases match_ query w Hk) as [Hf Hl].
  rewrite Hf, Hl. split.
  - intros d Hin Hd Hu. by rewrite (find_unique _ _ d Hin Hd Hu).
  - intros Hn.
    assert (List.find (field_is match_ query) (Mongo.docs (store w)) = None)
      as ->; [|done].
    by apply find_none_forall, Forall_forall.
Qed.

Lemma find_single_or_not_found_witness :
  find "signupToken" "ffffffff-ffff-4fff-bfff-ffff00000000" world1
    = (Done None (JDoc alice), world1)
  /\ find "email" "nobody@x.com" world1 = (Done None JNull, world1).
Proof.
  assert (Mongo.docs (store world1) = [alice]) as Hd by compute_done.
  split.
  - apply (proj1 (find_single_or_not_found "signupToken"
                    "ffffffff-ffff-4fff-bfff-ffff00000000" world1
                    ltac:(compute_done)) alice).
    + compute_done.
    + compute_done.
    + intros d' Hin _. rewrite Hd in Hin.
      by apply list_elem_of_singleton in Hin.
  - apply (proj2 (find_single_or_not_found "email" "nobody@x.com" world1
                    ltac:(compute_done))).
    intros d Hin. rewrite Hd in Hin. apply list_elem_of_singleton in Hin.
    subst d. compute_done.
Defined.

(** ** Removal *)

Lemma remove_cases f s w :
  let hit := field_is f s in
  db_remove (<[f := VStr s]> ∅) w
  = ((None, length (List.filter hit (Mongo.docs (store w)))),
     with_store (Mongo.mkCollection
                   (List.filter (fun d => negb (hit d)) (Mongo.docs (store w)))
                   (Mongo.uniqueIdx (store w))) w).
Proof.
  intros hit. unfold db_remove, Mongo.remove.
  rewrite (filter_ext (Mongo.matches _) hit) by apply matches_field.
  by rewrite (filter_ext (fun d => negb (Mongo.matches _ d)) (fun d => negb (hit d)))
    by (intros d; f_equal; apply matches_field).
Qed.

(** What both variants of [remove] compute, on their field [f]. *)
Lemma remove_run name w :
  let gone := LockitError ("lockit - Cannot find user " ++ quote ++ name ++ quote) in
  let result f :=
    (if (length (List.filter (field_is f name) (Mongo.docs (store w))) =? 0)%nat
     then Done (Some gone) JUndefined else Done None JTrue,
     with_store (Mongo.mkCollection
                   (List.filter (fun d => negb (field_is f name d))
                                (Mongo.docs (store w)))
                   (Mongo.uniqueIdx (store w))) w) in
  remove name w = result "name" /\ Legacy.remove name w = result "username".
Proof.
  intros gone result. subst result.
  unfold remove, Legacy.remove, mbind, M_bind, mret, M_ret.
  rewrite !remove_cases. cbn [fst snd].
  split; by destruct (_ =? _)%nat.
Qed.

(** C7: [remove(name)] deletes every record whose name is [name] and no
    other; when it deleted at least one it calls back with [true], and
    when it deleted none it calls back with the error whose message is
    [lockit - Cannot find user "name"] and leaves the collection as it
    was.  The older variant does the same on [username]. *)
Theorem remove_by_name name w :
  let gone := LockitError ("lockit - Cannot find user " ++ quote ++ name ++ quote) in
  (Mongo.docs (store (remove name w).2)
   = List.filter (fun d => negb (field_is "name" name d)) (Mongo.docs (store w))
   /\ ((exists d, d ∈ Mongo.docs (store w) /\ field_is "name" name d = true) ->
       (remove name w).1 = Done None JTrue)
   /\ ((forall d, d ∈ Mongo.docs (store w) -> field_is "name" name d = false) ->
       (remove name w).1 = Done (Some gone) JUndefined
       /\ store (remove name w).2 = store w))
  /\ (Mongo.docs (store (Legacy.remove name w).2)
      = List.filter (fun d => negb (field_is "username" name d))
                    (Mongo.docs (store w))
      /\ ((exists d, d ∈ Mongo.docs (store w) /\ field_is "username" name d = true) ->
          (Legacy.remove name w).1 = Done None JTrue)
      /\ ((forall d, d ∈ Mongo.docs (store w) -> field_is "username" name d = false) ->
          (Legacy.remove name w).1 = Done (Some gone) JUndefined
          /\ store (Legacy.remove name w).2 = store w)).
Proof.
  intros gone.
  destruct (remove_run name w) as [Hr Hl]. fold gone in Hr, Hl.
  rewrite Hr, Hl. cbn [fst snd with_store store Mongo.docs].
  split.
  - split; [done|]. split.
    + intros (d & Hin & Hd).
      pose proof (filter_some_length (field_is "name" name) _ d Hin Hd) as Hlen.
      by apply Nat.eqb_neq in Hlen as ->.
    + intros Hn.
      assert (Forall (fun d => field_is "name" name d = false) (Mongo.docs (store w)))
        as Hall by (by apply Forall_forall).
      apply filter_none in Hall as [-> ->]. simpl. by destruct (store w).
  - split; [done|]. split.
    + intros (d & Hin & Hd).
      pose proof (filter_some_length (field_is "username" name) _ d Hin Hd) as Hlen.
      by apply Nat.eqb_neq in Hlen as ->.
    + intros Hn.
      assert (Forall (fun d => field_is "username" name d = false)
                (Mongo.docs (store w)))
        as Hall by (by apply Forall_forall).
      apply filter_none in Hall as [-> ->]. simpl. by destruct (store w).
Qed.

Lemma remove_by_name_witness :
  (remove "ghost-user" world1).1
    = Done (Some (LockitError
         ("lockit - Cannot find user " ++ quote ++ "ghost-user" ++ quote)))
         JUndefined
  /\ store (remove "ghost-user" world1).2 = store world1
  /\ (remove "alice" world1).1 = Done None JTrue.
Proof.
  destruct (remove_by_name "ghost-user" world1) as ((_ & _ & Hghost) & _).
  destruct (remove_by_name "alice" world1) as ((_ & Halice & _) & _).
  assert (Mongo.docs (store world1) = [alice]) as Hd by compute_done.
  split; [|split].
  - apply Hghost. intros d Hin. rewrite Hd in Hin.
    apply list_elem_of_singleton in Hin. subst d. compute_done.
  - apply Hghost. intros d Hin. rewrite Hd in Hin.
    apply list_elem_of_singleton in Hin. subst d. compute_done.
  - apply Halice. exists alice. split; compute_done.
Defined.

(** ** Creation followed by lookup *)



(** ** Update *)

Section UpsertFacts.

Implicit Types (d : doc) (v : value) (l : list doc).

Lemma has_id_canon v d : Mongo.has_id (Mongo.canon v) d = Mongo.has_id v d.
Proof. unfold Mongo.has_id. by rewrite canon_idem. Qed.

Lemma find_replace_id v d l :
  Mongo.has_id v d = true -> existsb (Mongo.has_id v) l = true ->
  List.find (Mongo.has_id v) (Mongo.replace_id v d l) = Some d.
Proof.
  intros Hd. induction l as [|a l IH]; simpl; [done|].
  destruct (Mongo.has_id v a) eqn:E; simpl.
  - by rewrite Hd.
  - by rewrite E.
Qed.

Lemma existsb_pointwise {A} (p q : A -> bool) (l : list A) :
  (forall x, p x = q x) -> existsb p l = existsb q l.
Proof.
  intros H. induction l as [|a l IH]; simpl; [done | by rewrite H, IH].
Qed.

Lemma existsb_false_find {A} (p : A -> bool) (l : list A) :
  existsb p l = false -> List.find p l = None.
Proof.
  induction l as [|a l IH]; simpl; [done|].
  destruct (p a); simpl; [done | auto].
Qed.

(** An upsert either is rejected and changes nothing, or leaves the
    stored copy of [d] as the record found under its identifier. *)
Lemma upsert_cases v d c :
  Mongo.has_id v d = true ->
  match Mongo.upsert v d c with
  | (Some e, _, c') => (exists f, e = DuplicateKey f) /\ c' = c
  | (None, _, c') =>
      List.find (Mongo.has_id v) (Mongo.docs c') = Some (Mongo.stored d)
      /\ Mongo.docs c'
         = (if existsb (Mongo.has_id v) (Mongo.docs c)
            then Mongo.replace_id v (Mongo.stored d) (Mongo.docs c)
            else Mongo.docs c ++ [Mongo.stored d])%list
  end.
Proof.
  intros Hd. rewrite <- has_id_stored in Hd. unfold Mongo.upsert.
  destruct (Mongo.violated _ _ _) as [f|]; [by eauto|].
  destruct (existsb (Mongo.has_id v) (Mongo.docs c)) eqn:E; simpl.
  - split; [by apply find_replace_id | done].
  - split; [|done]. apply find_app_fresh; [by apply existsb_false_find | done].
Qed.

(** An insert either is rejected and changes nothing, or appends the
    stored copy of [d], whose identifier no stored record had. *)
Lemma insert_cases v d c :
  d !! "_id" = Some v ->
  match Mongo.insertOne d c with
  | (Some e, _, c') => (exists f, e = DuplicateKey f) /\ c' = c
  | (None, _, c') =>
      List.find (Mongo.has_id v) (Mongo.docs c') = Some (Mongo.stored d)
      /\ existsb (Mongo.has_id v) (Mongo.docs c) = false
      /\ Mongo.docs c' = (Mongo.docs c ++ [Mongo.stored d])%list
  end.
Proof.
  intros Hv. unfold Mongo.insertOne.
  destruct (Mongo.violated _ _ _) as [f|] eqn:E; [by eauto|]. simpl.
  assert (Hk : Mongo.key "_id" d = Mongo.canon v).
  { unfold Mongo.key. by rewrite Hv. }
  assert (Hn : existsb (Mongo.has_id v) (Mongo.docs c) = false).
  { unfold Mongo.violated in E. apply find_none_forall in E.
    apply Forall_cons in E as [E _]. unfold Mongo.clash in E.
    rewrite <- E. apply existsb_pointwise. intros d'. unfold Mongo.has_id.
    by rewrite Hk. }
  split; [|done].
  apply find_app_fresh; [by apply existsb_false_find|].
  rewrite has_id_stored. unfold Mongo.has_id. by apply bool_decide_eq_true.
Qed.

Lemma findOne_id v c :
  Mongo.findOne (<["_id" := v]> ∅) c = List.find (Mongo.has_id v) (Mongo.docs c).
Proof.
  unfold Mongo.findOne. apply find_ext_eq. intros d.
  by rewrite matches_singleton.
Qed.

End UpsertFacts.

Section UpdateFacts.

Implicit Types (d user : doc) (v : value) (l : list doc) (older : bool).

Lemma replace_id_canon v d l :
  Mongo.replace_id (Mongo.canon v) d l = Mongo.replace_id v d l.
Proof.
  induction l as [|a l IH]; simpl; [done|]. by rewrite has_id_canon, IH.
Qed.

(** Giving a document an identifier does not change what the serializer
    makes of it. *)
Lemma serializable_written older user w :
  Mongo.serializable (written_by older user w) = Mongo.serializable user.
Proof.
  unfold written_by, Mongo.serializable. destruct (lacks_id older user); [|done].
  by rewrite lookup_insert_ne.
Qed.

Lemma lacks_id_insert older d :
  lacks_id older d = true -> Mongo.canon (default VNull (d !! "_id")) = VNull.
Proof. unfold lacks_id. by destruct (d !! "_id") as [[]|]. Qed.

(** The upsert path of [collection.save]. *)
Lemma collection_save_upsert older d w :
  Mongo.canon (default VNull (d !! "_id")) <> VNull ->
  Mongo.serializable d = true ->
  collection_save older d w
  = (let '(err, r, c) :=
       Mongo.upsert (Mongo.canon (default VNull (d !! "_id"))) d (store w) in
     (inr (err, r, d), with_store c w)).
Proof.
  intros H Hs. unfold collection_save. rewrite Hs. by destruct (Mongo.canon _).
Qed.

(** The insert path of [collection.save]. *)
Lemma collection_save_insert older d w :
  Mongo.canon (default VNull (d !! "_id")) = VNull ->
  Mongo.serializable d = true ->
  collection_save older d w
  = (let d' := written_by older d w in
     let '(err, r, c) := Mongo.insertOne d' (store w) in
     (inr (err, r, d'),
      mkWorld c (env w) (clockReads w) (randomDraws w) (entropyDraws w)
              (if lacks_id older d then S (keysIssued w) else keysIssued w))).
Proof.
  intros H Hs. unfold collection_save. rewrite H.
  pose proof (serializable_written older d w) as Hw. rewrite Hs in Hw.
  unfold written_by in *. destruct (lacks_id older d); simpl; rewrite Hw.
  - by destruct (Mongo.insertOne _ _) as [[err r] c].
  - by destruct (Mongo.insertOne _ _) as [[err r] c].
Qed.

(** The serializer's refusal: nothing reaches the store. *)
Lemma collection_save_thrown older d w :
  Mongo.serializable d = false ->
  (collection_save older d w).1 = inl Mongo.not_a_function
  /\ store (collection_save older d w).2 = store w
  /\ env (collection_save older d w).2 = env w
  /\ clockReads (collection_save older d w).2 = clockReads w.
Proof.
  intros Hs. unfold collection_save.
  pose proof (serializable_written older d w) as Hw. rewrite Hs in Hw.
  unfold written_by in Hw.
  destruct (Mongo.canon _); try (by rewrite Hs).
  destruct (lacks_id older d); simpl; by rewrite Hw.
Qed.

(** The write of [collection.save] on a document the serializer accepts:
    rejected with the collection unchanged, or accepted with the written
    record found under its identifier. *)
Lemma collection_save_cases older user w :
  Mongo.serializable user = true ->
  let user' := written_by older user w in
  let id := default VUndefined (user' !! "_id") in
  match collection_save older user w with
  | (inl _, _) => False
  | (inr (Some e, _, d), w') =>
      (exists f, e = DuplicateKey f) /\ d = user' /\ store w' = store w
  | (inr (None, r, d), w') =>
      d = user'
      /\ List.find (Mongo.has_id id) (Mongo.docs (store w'))
         = Some (Mongo.stored user')
      /\ Mongo.docs (store w')
         = (if existsb (Mongo.has_id id) (Mongo.docs (store w))
            then Mongo.replace_id id (Mongo.stored user') (Mongo.docs (store w))
            else Mongo.docs (store w) ++ [Mongo.stored user'])%list
  end.
Proof.
  intros Hser user' id. subst id user'.
  destruct (decide (Mongo.canon (default VNull (user !! "_id")) = VNull)) as [E|E].
  - rewrite collection_save_insert by done. cbn zeta.
    set (user' := written_by older user w).
    assert (Hid : exists x, user' !! "_id" = Some x).
    { unfold user', written_by, lacks_id.
      destruct (user !! "_id") as [[]|] eqn:Hx; simpl in E; try done;
        try (eexists; apply lookup_insert_eq).
      destruct older; [eexists; apply lookup_insert_eq | by eexists]. }
    destruct Hid as [x Hx]. rewrite Hx. simpl.
    pose proof (insert_cases x user' (store w) Hx) as Hi.
    unfold Mongo.insertOne in *.
    destruct (Mongo.violated _ _ _) as [f|]; simpl in *.
    + destruct Hi as [Hf _]. done.
    + destruct Hi as (Hf & Hn & Hd). by rewrite Hn.
  - rewrite collection_save_upsert by done.
    assert (Hw : written_by older user w = user).
    { unfold written_by, lacks_id.
      destruct (user !! "_id") as [[]|]; simpl in E; try done. }
    rewrite Hw.
    destruct (user !! "_id") as [x|] eqn:Hx; simpl in *; [|done].
    assert (Hid : Mongo.has_id (Mongo.canon x) user = true).
    { unfold Mongo.has_id, Mongo.key. rewrite Hx. simpl.
      apply bool_decide_eq_true. by rewrite canon_idem. }
    pose proof (upsert_cases (Mongo.canon x) user (store w) Hid) as Hu.
    destruct (Mongo.upsert _ _ _) as [[[e|] r] c]; simpl.
    + destruct Hu as [Hf ->]. done.
    + destruct Hu as (Hf & Hd).
      rewrite (find_ext_eq _ _ _ (has_id_canon x)) in Hf.
      rewrite (existsb_pointwise _ _ _ (has_id_canon x)) in Hd.
      rewrite replace_id_canon in Hd. done.
Qed.

Lemma serializable_id_filter v : Mongo.serializable (<["_id" := v]> ∅) = true.
Proof. by apply serializable_singleton. Qed.

End UpdateFacts.

(** A rejected write: bob's record with alice's email.  [update] calls
    back with the store's error; the older variant logs it and returns
    the record it re-reads, the unchanged one. *)
Example update_rejected :
  Mongo.docs (store world2) = [alice; bob]
  /\ (update (<["email" := VStr "alice@x.com"]> bob) world2).1
     = Done (Some (DuplicateKey "email")) JUndefined
  /\ (Legacy.update (<["email" := VStr "alice@x.com"]> bob) world2).1
     = Done None (JDoc bob)
  /\ store (update (<["email" := VStr "alice@x.com"]> bob) world2).2 = store world2.
Proof. repeat split; compute_done. Qed.

(** An accepted write replaces the record in place, and a record with an
    [undefined] field is read back with [null]. *)
Example update_replaces :
  (update (<["failedLoginAttempts" := VNum 1]> alice) world2).1
    = Done None (JDoc (<["failedLoginAttempts" := VNum 1]> alice))
  /\ Mongo.docs (store (update (<["failedLoginAttempts" := VNum 1]> alice) world2).2)
     = [<["failedLoginAttempts" := VNum 1]> alice; bob]
  /\ (update (<["nickname" := VUndefined]> bob) world2).1
     = Done None (JDoc (<["nickname" := VNull]> bob)).
Proof. repeat split; compute_done. Qed.

(** A record with the identifier [null]: the current driver stores it
    under that identifier and issues no key, the older one gives it a
    fresh key. *)
Example update_null_id :
  (update (<["_id" := VNull]> (delete "_id" mallory)) world1).1
    = Done None (JDoc (<["_id" := VNull]> (delete "_id" mallory)))
  /\ keysIssued (update (<["_id" := VNull]> (delete "_id" mallory)) world1).2
     = keysIssued world1
  /\ (Legacy.update (<["_id" := VNull]> (delete "_id" mallory)) world1).1
     = Done None (JDoc (<["_id" := VObjectId 101]> mallory)).
Proof. repeat split; compute_done. Qed.

(** C1 as stated fails: [mallory]'s identifier matches no stored record,
    yet [update] does not report not-found: it inserts the record and
    returns it. *)
Lemma update_unknown_id_inserts :
  Mongo.findOne (<["_id" := VObjectId 7]> ∅) (store world1) = None
  /\ (update mallory world1).1 = Done None (JDoc mallory)
  /\ Mongo.docs (store (update mallory world1).2) = [alice; mallory].
Proof. repeat split; compute_done. Qed.

(** What [update] does with its write and its re-read. *)
Lemma update_cases user w :
  let user' := written user w in
  let id := default VUndefined (user' !! "_id") in
  let w' := (update user w).2 in
  (Mongo.serializable user = false
   /\ (update user w).1 = Uncaught Mongo.not_a_function
   /\ store w' = store w)
  \/ (Mongo.serializable user = true
      /\ (exists f, (update user w).1 = Done (Some (DuplicateKey f)) JUndefined)
      /\ store w' = store w)
  \/ (Mongo.serializable user = true
      /\ (update user w).1 = Done None (JDoc (Mongo.stored user'))
      /\ Mongo.findOne (<["_id" := id]> ∅) (store w') = Some (Mongo.stored user')
      /\ Mongo.docs (store w')
         = (if existsb (Mongo.has_id id) (Mongo.docs (store w))
            then Mongo.replace_id id (Mongo.stored user') (Mongo.docs (store w))
            else Mongo.docs (store w) ++ [Mongo.stored user'])%list).
Proof.
  intros user' id w'. subst w' id. unfold written in user'.
  destruct (Mongo.serializable user) eqn:Hser.
  - right.
    pose proof (collection_save_cases false user w Hser) as Hs. fold user' in Hs.
    unfold update, db_save, db_findOne, mbind, M_bind, mret, M_ret.
    destruct (collection_save false user w) as [[e|[[[e|] r] d]] w1];
      cbn [fst snd]; [done| |].
    + destruct Hs as ((f & ->) & -> & Hst). left.
      split; [done|]. split; [by exists f | done].
    + destruct Hs as (-> & Hf & Hd). rewrite serializable_id_filter.
      cbn [fst snd]. rewrite findOne_id, Hf. right. done.
  - left. split; [done|].
    destruct (collection_save_thrown false user w Hser) as (H1 & H2 & _).
    unfold update, db_save, mbind, M_bind, mret, M_ret.
    destruct (collection_save false user w) as [[e|x] w1]; simpl in *; [|done].
    by injection H1 as ->.
Qed.

(** The same for the older variant, which re-reads whatever the write
    did. *)
Lemma legacy_update_cases user w :
  let user' := written_by true user w in
  let id := default VUndefined (user' !! "_id") in
  let w' := (Legacy.update user w).2 in
  (Mongo.serializable user = false
   /\ (Legacy.update user w).1 = Uncaught Mongo.not_a_function
   /\ store w' = store w)
  \/ (Mongo.serializable user = true
      /\ (Legacy.update user w).1
         = Done None (of_found (Mongo.findOne (<["_id" := id]> ∅) (store w')))
      /\ (store w' = store w
          \/ Mongo.docs (store w')
             = (if existsb (Mongo.has_id id) (Mongo.docs (store w))
                then Mongo.replace_id id (Mongo.stored user') (Mongo.docs (store w))
                else Mongo.docs (store w) ++ [Mongo.stored user'])%list)).
Proof.
  intros user' id w'. subst w' id.
  destruct (Mongo.serializable user) eqn:Hser.
  - right. split; [done|].
    pose proof (collection_save_cases true user w Hser) as Hs. fold user' in Hs.
    unfold Legacy.update, Legacy.db_save, db_findOne, mbind, M_bind, mret, M_ret.
    destruct (collection_save true user w) as [[e|[[[e|] r] d]] w1];
      cbn [fst snd]; [done| |].
    + destruct Hs as (_ & -> & Hst). rewrite serializable_id_filter.
      cbn [fst snd]. split; [done | by left].
    + destruct Hs as (-> & _ & Hd).
      destruct r as [[[ops|] k]|]; cbn [fst snd option_bind Mongo.ops];
        rewrite serializable_id_filter; cbn [fst snd];
        (split; [done | by right]).
  - left. split; [done|].
    destruct (collection_save_thrown true user w Hser) as (H1 & H2 & _).
    unfold Legacy.update, Legacy.db_save, mbind, M_bind, mret, M_ret.
    destruct (collection_save true user w) as [[e|x] w1]; simpl in *; [|done].
    by injection H1 as ->.
Qed.

(** A document whose keys name fields passes the serializer. *)
Lemma storable_serializable user : storable user -> Mongo.serializable user = true.
Proof.
  intros Hs. unfold Mongo.serializable.
  destruct (user !! "toBSON") as [v|] eqn:E; [|done].
  by apply Hs in E.
Qed.

(** Off the identifier [null] the two drivers write the same record. *)
Lemma written_by_agree user w :
  user !! "_id" <> Some VNull -> written_by true user w = written_by false user w.
Proof.
  intros H. unfold written_by, lacks_id. by destruct (user !! "_id") as [[]|].
Qed.

Lemma collection_save_agree user w :
  user !! "_id" <> Some VNull ->
  collection_save true user w = collection_save false user w.
Proof.
  intros H. unfold collection_save, lacks_id. by destruct (user !! "_id") as [[]|].
Qed.

(** C1 (amended): [update] writes the given record (a document whose
    keys name fields) by [collection.save] and never reports not-found.
    Either the store rejects the write on a unique index, and [update]
    calls back with that error leaving the collection unchanged; or the
    record replaces the stored record with its identifier, or is
    appended when no stored record has that identifier, and [update]
    returns the record found by re-reading the collection by that
    identifier: the stored copy of the record just written.  The record
    is written under a fresh identifier when it has none ([undefined] or
    missing) and as it is, issuing no key, when its identifier is
    [null].  The older variant writes the record in the same way, except
    that its driver replaces a [null] identifier by a fresh one too, and
    always returns the result of the re-read. *)
Theorem update_upserts user w :
  storable user ->
  let user' := written user w in
  let id := default VUndefined (user' !! "_id") in
  let w' := (update user w).2 in
  (((exists f, (update user w).1 = Done (Some (DuplicateKey f)) JUndefined)
    /\ store w' = store w)
   \/ ((update user w).1 = Done None (JDoc (Mongo.stored user'))
       /\ Mongo.findOne (<["_id" := id]> ∅) (store w') = Some (Mongo.stored user')
       /\ Mongo.docs (store w')
          = (if existsb (Mongo.has_id id) (Mongo.docs (store w))
             then Mongo.replace_id id (Mongo.stored user') (Mongo.docs (store w))
             else Mongo.docs (store w) ++ [Mongo.stored user'])%list))
  /\ (user !! "_id" = Some VNull -> user' = user /\ keysIssued w' = keysIssued w)
  /\ (let luser' := written_by true user w in
      let lid := default VUndefined (luser' !! "_id") in
      let lw' := (Legacy.update user w).2 in
      (Legacy.update user w).1
      = Done None (of_found (Mongo.findOne (<["_id" := lid]> ∅) (store lw')))
      /\ (store lw' = store w
          \/ Mongo.docs (store lw')
             = (if existsb (Mongo.has_id lid) (Mongo.docs (store w))
                then Mongo.replace_id lid (Mongo.stored luser') (Mongo.docs (store w))
                else Mongo.docs (store w) ++ [Mongo.stored luser'])%list)
      /\ (user !! "_id" = Some VNull ->
          luser' !! "_id" = Some (VObjectId (primaryKey (env w) (keysIssued w)))))
  /\ (user !! "_id" <> Some VNull -> store (Legacy.update user w).2 = store w').
Proof.
  intros Hst user' id w'. apply storable_serializable in Hst.
  split; [|split; [|split]].
  - destruct (update_cases user w) as [(Hs & _) | [(_ & H) | (_ & H)]];
      [congruence | by left | by right].
  - intros Hnull. subst user' w'. unfold written, written_by, lacks_id.
    rewrite Hnull. split; [done|].
    unfold update, db_save, db_findOne, mbind, M_bind, mret, M_ret.
    rewrite collection_save_insert by (by rewrite ?Hnull).
    unfold lacks_id. rewrite Hnull. cbn zeta.
    destruct (Mongo.insertOne _ _) as [[[e|] r] c]; cbn [fst snd]; [done|].
    by rewrite serializable_id_filter.
  - intros luser' lid lw'.
    destruct (legacy_update_cases user w) as [(Hs & _) | (_ & H1 & H2)];
      [congruence|].
    split; [exact H1|]. split; [exact H2|].
    intros Hnull. subst luser'. unfold written_by, lacks_id. rewrite Hnull.
    apply lookup_insert_eq.
  - intros Hnn. subst w'.
    unfold update, Legacy.update, Legacy.db_save, db_save, db_findOne, mbind,
      M_bind, mret, M_ret.
    rewrite (collection_save_agree user w Hnn).
    pose proof (collection_save_cases false user w Hst) as Hs.
    destruct (collection_save false user w) as [[e|[[[e|] r] d]] w1];
      cbn [fst snd]; [done| |].
    + by rewrite serializable_id_filter.
    + rewrite serializable_id_filter.
      destruct r as [[[ops|] k]|]; cbn [fst snd option_bind Mongo.ops];
        by rewrite serializable_id_filter.
Qed.

Lemma update_upserts_witness :
  storable mallory
  /\ (update mallory world1).1 = Done None (JDoc (Mongo.stored mallory))
  /\ Mongo.docs (store (update mallory world1).2)
     = (Mongo.docs (store world1) ++ [Mongo.stored mallory])%list.
Proof.
  assert (Hs : storable mallory) by compute_done.
  split; [exact Hs|].
  destruct (update_upserts mallory world1 Hs) as [[[[f Hf] _] | (Ho & _ & Hd)] _].
  - exfalso. revert Hf. compute_done.
  - split; [exact Ho|]. rewrite Hd. compute_done.
Defined.

(** ** The record invariants *)

Section Invariants.

Implicit Types (d r user : doc) (l : list doc) (w : World).

Lemma ok_filter (p : doc -> bool) l : Forall ok l -> Forall ok (List.filter p l).
Proof.
  induction 1 as [|a l Ha _ IH]; simpl; [constructor|].
  destruct (p a); [by constructor | done].
Qed.

Lemma ok_replace_id v d l :
  ok d -> Forall ok l -> Forall ok (Mongo.replace_id v d l).
Proof.
  intros Hd. induction 1 as [|a l Ha Hl IH]; simpl; [constructor|].
  destruct (Mongo.has_id v a); by constructor.
Qed.

Lemma ok_written older user w :
  record_ok (written_by older user w) = record_ok user.
Proof.
  unfold written_by. destruct (lacks_id older user); [|done].
  unfold record_ok. by rewrite !lookup_insert_ne by done.
Qed.

Lemma find_elem {A} (p : A -> bool) (l : list A) (x : A) :
  List.find p l = Some x -> x ∈ l.
Proof. intros H. apply find_some in H as [H _]. by apply list_elem_of_In. Qed.

(** [collection.save] reads no clock and touches no oracle but the
    primary keys. *)
Lemma collection_save_frame older d w :
  env (collection_save older d w).2 = env w
  /\ clockReads (collection_save older d w).2 = clockReads w.
Proof.
  destruct (Mongo.serializable d) eqn:Hs.
  - destruct (decide (Mongo.canon (default VNull (d !! "_id")) = VNull)) as [E|E].
    + rewrite collection_save_insert by done. cbn zeta.
      by destruct (Mongo.insertOne _ _) as [[err r] c].
    + rewrite collection_save_upsert by done.
      by destruct (Mongo.upsert _ _ _) as [[err r] c].
  - by destruct (collection_save_thrown older d w Hs) as (_ & _ & H1 & H2).
Qed.

Lemma update_frame_oracles user w :
  env (update user w).2 = env w /\ clockReads (update user w).2 = clockReads w.
Proof.
  pose proof (collection_save_frame false user w) as [He Hc].
  unfold update, db_save, db_findOne, mbind, M_bind, mret, M_ret.
  destruct (collection_save false user w) as [[e|[[[e|] r] d]] w1];
    cbn [fst snd] in *; try done.
Qed.

Lemma env_run_op config op w : env (run_op config op w).2 = env w.
Proof.
  destruct op as [name email pw extra|match_ query|user|name]; cbn [run_op].
  - pose proof (save_cases config name email pw extra w) as Hs. simpl in Hs.
    destruct (entropy (env w) (entropyDraws w)); [|by rewrite Hs].
    destruct (Mongo.violated _ _ _); by rewrite Hs.
  - by destruct (find_run match_ query w) as (-> & _).
  - apply update_frame_oracles.
  - by destruct (remove_run name w) as (-> & _).
Qed.

(** A create reads the clock twice; no other call reads it. *)
Lemma clock_run_op config op w :
  clockReads (run_op config op w).2 = (clockReads w + 2 * saves [op])%nat.
Proof.
  destruct op as [name email pw extra|match_ query|user|name]; cbn [run_op saves].
  - pose proof (save_cases config name email pw extra w) as Hs. simpl in Hs.
    destruct (entropy (env w) (entropyDraws w)); [|rewrite Hs; simpl; lia].
    destruct (Mongo.violated _ _ _); rewrite Hs; simpl; lia.
  - destruct (find_run match_ query w) as (-> & _). simpl. lia.
  - rewrite (proj2 (update_frame_oracles user w)). lia.
  - destruct (remove_run name w) as (-> & _). simpl. lia.
Qed.

Variable config : Config.
Variable ttl : Z.
Hypothesis ttl_parsed : ms (signup_tokenExpiration config) = Some ttl.
Hypothesis ttl_positive : 0 < ttl.

Lemma run_op_ok op w :
  clock_sane ttl (env w) (clockReads w) (saves [op]) ->
  (forall u, op = OpUpdate u -> ok u) ->
  Forall ok (Mongo.docs (store w)) ->
  Forall ok (Mongo.docs (store (run_op config op w).2))
  /\ (forall err r, (run_op config op w).1 = Done err (JDoc r) -> ok r).
Proof.
  intros Hclock Hupd Hall.
  destruct op as [name email pw extra|match_ query|user|name]; cbn [run_op].
  - pose proof (save_cases config name email pw extra w) as Hs. simpl in Hs.
    destruct (Hclock 0%nat) as (Hmono & H1 & H2); [simpl; lia|].
    rewrite Nat.add_0_r in Hmono, H1, H2.
    assert (Hd1 : toDate (clock (env w) (clockReads w))
                  = VDate (clock (env w) (clockReads w))).
    { by apply toDate_valid. }
    assert (Hd2 : toDate (add (Some ttl) (clock (env w) (S (clockReads w))))
                  = VDate (clock (env w) (S (clockReads w)) + ttl)).
    { unfold add. simpl. by apply toDate_valid. }
    rewrite ttl_parsed, Hd1, Hd2 in Hs.
    destruct (entropy (env w) (entropyDraws w)) as [salt|];
      [|rewrite Hs; by split].
    match type of Hs with
    | match Mongo.violated _ ?u' _ with _ => _ end => set (u := u') in *
    end.
    assert (Hu : ok u).
    { unfold ok, record_ok. subst u. destruct (useExtra config); simplify_map_eq;
        apply andb_true_intro; split; try done; apply Z.ltb_lt; lia. }
    assert (Hsu : ok (Mongo.stored u)) by (by apply record_ok_stored).
    destruct (Mongo.violated _ _ _); rewrite Hs; simpl; [by split|].
    split.
    + apply Forall_app. split; [done | by constructor].
    + intros err r [= _ <-]. done.
  - destruct (find_run match_ query w) as (-> & _). cbn [fst snd].
    split; [done|]. intros err r.
    destruct (Mongo.serializable _); [|done].
    intros [= _ Hr]. unfold Mongo.findOne in Hr.
    destruct (List.find _ _) as [x|] eqn:E; simpl in Hr; [|done].
    injection Hr as <-. apply find_elem in E.
    by apply (proj1 (Forall_forall _ _) Hall).
  - assert (Hu : ok (Mongo.stored (written user w))).
    { apply record_ok_stored. unfold written. rewrite ok_written. by apply Hupd. }
    destruct (update_cases user w)
      as [(_ & Ho & Hst) | [(_ & [f Hf] & Hst) | (_ & Ho & _ & Hd)]].
    + rewrite Ho, Hst. by split.
    + rewrite Hf, Hst. by split.
    + rewrite Ho, Hd. split.
      * destruct (existsb _ _); [by apply ok_replace_id|].
        apply Forall_app. split; [done | by constructor].
      * by intros err r [= _ <-].
  - destruct (remove_run name w) as (-> & _). cbn [fst snd].
    split; [by apply ok_filter|].
    intros err r. by destruct (_ =? _)%nat.
Qed.

End Invariants.

(** C9 as stated fails, with the positive TTL "24h" throughout.  [update]
    stores a record whose token expires before its sign-up instant and
    whose failed-login counter is negative, and [find] hands that record
    out.  A create on a clock that steps back between its two readings
    returns a record that expires before its sign-up instant.  A create
    whose expiry is past the last instant a [Date] can hold returns a
    record whose expiry is no date at all, stored as the date of time
    value 0. *)
Lemma update_breaks_invariants :
  ms (signup_tokenExpiration config0) = Some 86400000
  /\ (find "name" "mallory"
        (run_ops config0
           [OpSave "alice" "alice@x.com" "s3cret!" VUndefined; OpUpdate mallory]
           world0).2).1 = Done None (JDoc mallory)
  /\ record_ok mallory = false
  /\ (exists r, (save config0 "alice" "alice@x.com" "s3cret!" VUndefined
                      world_back).1 = Done None (JDoc r)
                /\ r !! "signupTimestamp" = Some (VDate 1700000000000)
                /\ r !! "signupTokenExpires" = Some (VDate 1699996400000)
                /\ record_ok r = false)
  /\ (exists r, (save config0 "alice" "alice@x.com" "s3cret!" VUndefined
                      world_late).1 = Done None (JDoc r)
                /\ r !! "signupTokenExpires" = Some VInvalidDate
                /\ Mongo.stored r !! "signupTokenExpires" = Some (VDate 0)
                /\ record_ok r = false
                /\ record_ok (Mongo.stored r) = false).
Proof.
  split; [compute_done|]. split; [compute_done|]. split; [compute_done|].
  split.
  - exists (<["signupTokenExpires" := VDate 1699996400000]> alice).
    repeat split; compute_done.
  - exists (<["signupTimestamp" := VDate 8640000000000000]> (
            <["signupTokenExpires" := VInvalidDate]> alice)).
    repeat split; compute_done.
Qed.

(** C9 (amended): with a TTL that parses to a positive duration, and at
    every create of the run a clock that does not run backwards between
    the two readings of that call and dates in the range a [Date] can
    hold, every record produced by create has
    [signupTokenExpires > signupTimestamp] and
    [failedLoginAttempts >= 0]; find and remove store nothing new, and
    update stores the record it is given without validating it.  So,
    starting from a collection whose records satisfy the invariants,
    after any sequence of calls in which update is only given records
    that satisfy them, every stored record and every record handed to a
    callback satisfies them.  Nothing is asked of the clock between two
    creates. *)
Theorem invariants_preserved config ttl ops w :
  ms (signup_tokenExpiration config) = Some ttl ->
  0 < ttl ->
  clock_sane ttl (env w) (clockReads w) (saves ops) ->
  (forall u, OpUpdate u ∈ ops -> ok u) ->
  Forall ok (Mongo.docs (store w)) ->
  Forall ok (Mongo.docs (store (run_ops config ops w).2))
  /\ (forall err r, Done err (JDoc r) ∈ (run_ops config ops w).1 -> ok r).
Proof.
  intros Hms Hpos. revert w.
  induction ops as [|op ops IH]; intros w Hclock Hupd Hall; simpl.
  - split; [done|]. intros err r H. by apply elem_of_nil in H.
  - pose proof (env_run_op config op w) as He.
    pose proof (clock_run_op config op w) as Hc.
    assert (Hsplit : saves (op :: ops) = (saves [op] + saves ops)%nat).
    { destruct op; simpl; lia. }
    destruct (run_op_ok config ttl Hms Hpos op w) as [Hst Hout]; [| |done|].
    { intros j Hj. apply Hclock. lia. }
    { intros u ->. apply Hupd. left. }
    destruct (run_op config op w) as [o w1]. cbn [fst snd] in He, Hc, Hst, Hout.
    destruct (IH w1) as [IH1 IH2]; [| |done|].
    { rewrite He, Hc. intros j Hj.
      replace (clockReads w + 2 * saves [op] + 2 * j)%nat
        with (clockReads w + 2 * (saves [op] + j))%nat by lia.
      apply Hclock. lia. }
    { intros u Hu. apply Hupd. by right. }
    destruct (run_ops config ops w1) as [os w2]. cbn [fst snd] in *.
    split; [done|]. intros err r Hin.
    apply elem_of_cons in Hin as [Heq|Hin]; [by apply (Hout err r)|].
    by apply (IH2 err r).
Qed.

(** The clock of [env0] is fair at every create. *)
Lemma env0_clock_sane k n : clock_sane 86400000 env0 k n.
Proof. intros j _. unfold clock_fair, env0, maxTime. simpl. lia. Qed.

(** A clock that keeps advancing between calls, and steps back between
    two creates, is fair to both. *)
Lemma clock_sane_permissive (e : Env) :
  clock e 0 = 5000 -> clock e 1 = 5001 -> clock e 2 = 1000 -> clock e 3 = 1000 ->
  clock_sane 1 e 0 2.
Proof.
  intros H0 H1 H2 H3 j Hj. unfold clock_fair, maxTime.
  destruct j as [|[|j]]; simpl; [rewrite H0, H1 | rewrite H2, H3 | ]; lia.
Qed.

Lemma invariants_preserved_witness :
  let ops := [OpSave "alice" "alice@x.com" "s3cret!" VUndefined;
              OpFind "email" "alice@x.com";
              OpUpdate (<["failedLoginAttempts" := VNum 3]> alice);
              OpSave "bob" "bob@x.com" "hunter2" VUndefined;
              OpRemove "alice"] in
  Forall ok (Mongo.docs (store (run_ops config0 ops world0).2))
  /\ (forall err r, Done err (JDoc r) ∈ (run_ops config0 ops world0).1 -> ok r).
Proof.
  intros ops.
  apply (invariants_preserved config0 86400000 ops world0).
  - compute_done.
  - lia.
  - apply env0_clock_sane.
  - intros u Hu. subst ops.
    repeat (apply elem_of_cons in Hu as [Hu|Hu]; [try discriminate|]).
    + injection Hu as ->. compute_done.
    + by apply elem_of_nil in Hu.
  - assert (Mongo.docs (store world0) = []) as -> by compute_done. constructor.
Defined.

(** * Further properties of the adapter *)

(** ** The constructor *)

Section AdapterFacts.

Implicit Types (c database : Mongo.Collection) (f g : string).

Lemma dropIndex_docs f c : Mongo.docs (Mongo.dropIndex f c) = Mongo.docs c.
Proof. done. Qed.

Lemma dropIndex_gone f c : f ∉ Mongo.uniqueIdx (Mongo.dropIndex f c).
Proof.
  unfold Mongo.dropIndex. simpl. intros H. apply list_elem_of_In in H.
  apply filter_In in H as [_ H]. by rewrite bool_decide_eq_true_2 in H.
Qed.

Lemma createIndex_other f g c :
  g <> f -> g ∈ Mongo.uniqueIdx (Mongo.createIndex f c) -> g ∈ Mongo.uniqueIdx c.
Proof.
  intros Hne. unfold Mongo.createIndex. case_bool_decide as Hin; [done|].
  destruct (Mongo.has_duplicates f (Mongo.docs c)); [done|]. simpl.
  intros Hg. apply elem_of_app in Hg as [Hg|Hg]; [done|].
  by apply list_elem_of_singleton in Hg.
Qed.

Lemma createIndex_built f c :
  f ∈ Mongo.uniqueIdx (Mongo.createIndex f c) ->
  f ∈ Mongo.uniqueIdx c \/ Mongo.has_duplicates f (Mongo.docs c) = false.
Proof.
  unfold Mongo.createIndex. case_bool_decide; [by left|].
  destruct (Mongo.has_duplicates f (Mongo.docs c)); [by left | by right].
Qed.

Lemma createIndex_twice f c :
  Mongo.createIndex f (Mongo.createIndex f c) = Mongo.createIndex f c.
Proof.
  destruct (decide (f ∈ Mongo.uniqueIdx c)) as [Hin|Hin].
  - assert (Hc : Mongo.createIndex f c = c).
    { unfold Mongo.createIndex. by rewrite bool_decide_eq_true_2. }
    by rewrite !Hc.
  - destruct (Mongo.has_duplicates f (Mongo.docs c)) eqn:Hd.
    + assert (Hc : Mongo.createIndex f c = c).
      { unfold Mongo.createIndex. by rewrite bool_decide_eq_false_2, Hd. }
      by rewrite !Hc.
    + assert (Hc : Mongo.createIndex f c
                   = Mongo.mkCollection (Mongo.docs c) (Mongo.uniqueIdx c ++ [f])).
      { unfold Mongo.createIndex. by rewrite bool_decide_eq_false_2, Hd. }
      rewrite Hc. unfold Mongo.createIndex. simpl.
      rewrite bool_decide_eq_true_2; [done|].
      apply elem_of_app. right. by left.
Qed.

Lemma has_duplicates_NoDup f (l : list doc) :
  Mongo.has_duplicates f l = false <-> NoDup (map (Mongo.key f) l).
Proof.
  unfold Mongo.has_duplicates. rewrite negb_false_iff. apply bool_decide_eq_true.
Qed.

Lemma indexes_hold_createIndex f c :
  indexes_hold c -> indexes_hold (Mongo.createIndex f c).
Proof.
  intros H g Hg. rewrite createIndex_docs.
  apply elem_of_cons in Hg as [->|Hg]; [apply H; left|].
  destruct (decide (g = f)) as [->|Hne].
  - apply createIndex_built in Hg as [Hg|Hg]; [apply H; by right|].
    by apply has_duplicates_NoDup.
  - apply H. right. by apply (createIndex_other f).
Qed.

Lemma indexes_hold_dropIndex f c :
  indexes_hold c -> indexes_hold (Mongo.dropIndex f c).
Proof.
  intros H g Hg. rewrite dropIndex_docs.
  apply elem_of_cons in Hg as [->|Hg]; [apply H; left|].
  apply H. right. unfold Mongo.dropIndex in Hg. simpl in Hg.
  apply list_elem_of_In in Hg. apply filter_In in Hg as [Hg _].
  by apply list_elem_of_In.
Qed.

End AdapterFacts.

(** X1: the constructor's index set-up never touches a document.  When
    [uniqueName] is off the collection is left without an index on
    [name], whatever it had before; the index on [email] (and the one on
    [name] when [uniqueName] is on) is in place afterwards exactly when it
    was there already or the existing documents have no two equal keys
    under that field: a build over duplicates fails and leaves the field
    unconstrained. *)
Theorem Adapter_setup config database :
  Mongo.docs (Adapter config database) = Mongo.docs database
  /\ (uniqueName config = false -> "name" ∉ Mongo.uniqueIdx (Adapter config database))
  /\ ("email" ∈ Mongo.uniqueIdx (Adapter config database) <->
      "email" ∈ Mongo.uniqueIdx database
      \/ Mongo.has_duplicates "email" (Mongo.docs database) = false)
  /\ (uniqueName config = true ->
      ("name" ∈ Mongo.uniqueIdx (Adapter config database) <->
       "name" ∈ Mongo.uniqueIdx database
       \/ Mongo.has_duplicates "name" (Mongo.docs database) = false)).
Proof.
  assert (Hdocs : forall b : bool,
            Mongo.docs (if b then Mongo.createIndex "name" database
                        else Mongo.dropIndex "name" database)
            = Mongo.docs database).
  { intros []; [apply createIndex_docs | apply dropIndex_docs]. }
  unfold Adapter. split; [|split; [|split]].
  - by rewrite createIndex_docs, Hdocs.
  - intros -> H. apply (createIndex_other "email") in H; [|done].
    by apply dropIndex_gone in H.
  - split.
    + intros H. apply createIndex_built in H as [H|H].
      * left. destruct (uniqueName config).
        -- by apply (createIndex_other "name") in H.
        -- unfold Mongo.dropIndex in H. simpl in H.
           apply list_elem_of_In in H. apply filter_In in H as [H _].
           by apply list_elem_of_In.
      * right. by rewrite Hdocs in H.
    + intros [H|H].
      * apply createIndex_elem. destruct (uniqueName config).
        -- by apply createIndex_elem.
        -- unfold Mongo.dropIndex. simpl. apply list_elem_of_In, filter_In.
           split; [by apply list_elem_of_In | done].
      * apply createIndex_new. by rewrite Hdocs.
  - intros ->. split.
    + intros H. apply (createIndex_other "email") in H; [|done].
      by apply createIndex_built in H.
    + intros [H|H].
      * by do 2 apply createIndex_elem.
      * by apply createIndex_elem, createIndex_new.
Qed.

Lemma Adapter_setup_witness :
  ("name" ∉ Mongo.uniqueIdx
              (Adapter (mkConfig false false "24h") (store world1)))
  /\ ("email" ∈ Mongo.uniqueIdx
                (Adapter (mkConfig false false "24h") (store world1))).
Proof.
  destruct (Adapter_setup (mkConfig false false "24h") (store world1))
    as (_ & Hn & He & _).
  split; [by apply Hn|]. apply He. left. compute_done.
Defined.

Section AdapterAgain.

Implicit Types (c : Mongo.Collection) (f : string).

Lemma createIndex_settled f c :
  f ∈ Mongo.uniqueIdx c \/ Mongo.has_duplicates f (Mongo.docs c) = true ->
  Mongo.createIndex f c = c.
Proof.
  intros [H|H]; unfold Mongo.createIndex.
  - by rewrite bool_decide_eq_true_2.
  - rewrite H. by case_bool_decide.
Qed.

Lemma createIndex_settles f c :
  f ∈ Mongo.uniqueIdx (Mongo.createIndex f c)
  \/ Mongo.has_duplicates f (Mongo.docs (Mongo.createIndex f c)) = true.
Proof.
  rewrite createIndex_docs.
  destruct (Mongo.has_duplicates f (Mongo.docs c)) eqn:Hd; [by right|].
  left. by apply createIndex_new.
Qed.

Lemma dropIndex_absent f c : f ∉ Mongo.uniqueIdx c -> Mongo.dropIndex f c = c.
Proof.
  intros H. destruct c as [l idx]. unfold Mongo.dropIndex. simpl in *. f_equal.
  induction idx as [|g idx IH]; simpl; [done|].
  rewrite bool_decide_eq_false_2.
  - simpl. f_equal. apply IH. intros Hin. apply H. by right.
  - intros ->. apply H. left.
Qed.

End AdapterAgain.

(** X2: running the constructor again on a database it has already set
    up changes nothing: the second run builds no index, drops none and
    leaves every document in place. *)
Theorem Adapter_again config database :
  Adapter config (Adapter config database) = Adapter config database.
Proof.
  unfold Adapter. destruct (uniqueName config).
  - set (c1 := Mongo.createIndex "name" database).
    assert (Hn : Mongo.createIndex "name" (Mongo.createIndex "email" c1)
                 = Mongo.createIndex "email" c1).
    { apply createIndex_settled.
      destruct (createIndex_settles "name" database) as [H|H]; fold c1 in H.
      - left. by apply createIndex_elem.
      - right. by rewrite createIndex_docs. }
    rewrite Hn. apply createIndex_twice.
  - set (c1 := Mongo.dropIndex "name" database).
    assert (Hn : Mongo.dropIndex "name" (Mongo.createIndex "email" c1)
                 = Mongo.createIndex "email" c1).
    { apply dropIndex_absent. intros H.
      apply (createIndex_other "email") in H; [|done].
      by apply dropIndex_gone in H. }
    rewrite Hn. apply createIndex_twice.
Qed.

(** ** Well-formed collections stay well-formed *)

Section WellFormed.

Implicit Types (d : doc) (v : value) (l : list doc) (c : Mongo.Collection)
  (f : string).

Lemma stored_stored d : Mongo.stored (Mongo.stored d) = Mongo.stored d.
Proof.
  apply map_eq. intros k. rewrite !stored_lookup.
  destruct (d !! k) as [x|]; simpl; [by rewrite canon_idem | done].
Qed.

Lemma canonical_stored d :
  Mongo.key "_id" d <> VNull -> canonical (Mongo.stored d).
Proof. intros H. split; [apply stored_stored | by rewrite key_stored]. Qed.

Lemma clash_false f d l :
  Mongo.clash f d l = false <-> Mongo.key f d ∉ map (Mongo.key f) l.
Proof.
  unfold Mongo.clash. induction l as [|a l IH]; simpl.
  - split; [intros _; apply not_elem_of_nil | done].
  - rewrite orb_false_iff, IH, not_elem_of_cons, bool_decide_eq_false.
    split; intros [H1 H2]; split; auto.
Qed.

Lemma violated_none idx d l :
  Mongo.violated idx d l = None <->
  forall f, f ∈ "_id" :: idx -> Mongo.key f d ∉ map (Mongo.key f) l.
Proof.
  unfold Mongo.violated. rewrite find_none_forall, Forall_forall.
  split; intros H f Hf; apply clash_false; by apply H.
Qed.

Lemma NoDup_key_snoc f l d :
  NoDup (map (Mongo.key f) l) -> Mongo.key f d ∉ map (Mongo.key f) l ->
  NoDup (map (Mongo.key f) (l ++ [Mongo.stored d])).
Proof.
  intros Hl Hd. rewrite map_app. apply NoDup_app. split; [done|]. split.
  - intros x Hx Hin. simpl in Hin. apply list_elem_of_singleton in Hin.
    rewrite key_stored in Hin. by subst x.
  - simpl. apply NoDup_singleton.
Qed.

Lemma NoDup_key_filter f (p : doc -> bool) l :
  NoDup (map (Mongo.key f) l) -> NoDup (map (Mongo.key f) (List.filter p l)).
Proof.
  induction l as [|a l IH]; simpl; [done|]. intros H.
  apply NoDup_cons in H as [Ha Hl]. destruct (p a); simpl; [|auto].
  apply NoDup_cons. split; [|auto].
  intros Hin. apply Ha. apply list_elem_of_fmap in Hin as (x & Hx & Hin).
  apply list_elem_of_fmap. exists x. split; [done|].
  apply list_elem_of_In in Hin. apply filter_In in Hin as [Hin _].
  by apply list_elem_of_In.
Qed.

Lemma elem_of_replace_id v d l x :
  x ∈ Mongo.replace_id v d l -> x = d \/ x ∈ l.
Proof.
  induction l as [|a l IH]; simpl; [by right|].
  destruct (Mongo.has_id v a).
  - intros H. apply elem_of_cons in H as [->|H]; [by left|]. right. by right.
  - intros H. apply elem_of_cons in H as [->|H]; [right; left|].
    destruct (IH H) as [->|Hx]; [by left|]. right. by right.
Qed.

(** With distinct identifiers, at most the head holds a given one. *)
Lemma has_id_once v a l :
  NoDup (map (Mongo.key "_id") (a :: l)) -> Mongo.has_id v a = true ->
  List.filter (fun d' => negb (Mongo.has_id v d')) l = l.
Proof.
  intros H Ha. simpl in H. apply NoDup_cons in H as [Hn _].
  unfold Mongo.has_id in Ha. apply bool_decide_eq_true in Ha.
  induction l as [|b l IH]; simpl; [done|].
  assert (Mongo.has_id v b = false) as ->.
  { unfold Mongo.has_id. apply bool_decide_eq_false. intros Hb.
    apply Hn. simpl. rewrite Ha, <- Hb. left. }
  simpl. f_equal. apply IH. intros Hin. apply Hn. simpl. by right.
Qed.

Lemma NoDup_key_replace f v d l :
  NoDup (map (Mongo.key "_id") l) ->
  NoDup (map (Mongo.key f) l) ->
  Mongo.key f d ∉
    map (Mongo.key f) (List.filter (fun d' => negb (Mongo.has_id v d')) l) ->
  NoDup (map (Mongo.key f) (Mongo.replace_id v (Mongo.stored d) l)).
Proof.
  induction l as [|a l IH]; simpl; [done|]. intros Hid Hf Hd.
  destruct (Mongo.has_id v a) eqn:Ea; simpl in *.
  - rewrite (has_id_once v a l Hid Ea) in Hd.
    apply NoDup_cons in Hf as [_ Hf]. apply NoDup_cons.
    by rewrite key_stored.
  - apply NoDup_cons in Hf as [Ha Hf]. apply not_elem_of_cons in Hd as [Hda Hd].
    apply NoDup_cons. split.
    + intros Hin. apply list_elem_of_fmap in Hin as (x & Hx & Hin).
      apply elem_of_replace_id in Hin as [->|Hin].
      * rewrite key_stored in Hx. congruence.
      * apply Ha. apply list_elem_of_fmap. by exists x.
    + apply IH; [|done|done]. by apply NoDup_cons in Hid as [_ Hid].
Qed.

Lemma Forall_replace_id (P : doc -> Prop) v d l :
  P d -> Forall P l -> Forall P (Mongo.replace_id v d l).
Proof.
  intros Hd. induction 1 as [|a l Ha Hl IH]; simpl; [constructor|].
  destruct (Mongo.has_id v a); by constructor.
Qed.

Lemma Forall_list_filter (P : doc -> Prop) (p : doc -> bool) l :
  Forall P l -> Forall P (List.filter p l).
Proof.
  induction 1 as [|a l Ha _ IH]; simpl; [constructor|].
  destruct (p a); [by constructor | done].
Qed.

Lemma wf_sound c : wf_store c -> sound_store c.
Proof.
  intros [Hall Hidx]. split; [|done].
  eapply Forall_impl; [exact Hall|]. by intros d [H _].
Qed.

Lemma insertOne_sound d c :
  sound_store c ->
  sound_store (Mongo.insertOne d c).2
  /\ Mongo.uniqueIdx (Mongo.insertOne d c).2 = Mongo.uniqueIdx c.
Proof.
  intros [Hall Hidx]. unfold Mongo.insertOne.
  destruct (Mongo.violated _ _ _) eqn:E; simpl; [done|].
  split; [|done]. split; simpl.
  - apply Forall_app. split; [done|]. constructor; [|constructor].
    apply stored_stored.
  - intros f Hf. simpl in *. apply NoDup_key_snoc; [by apply Hidx|].
    by apply (proj1 (violated_none _ _ _) E).
Qed.

Lemma upsert_sound v d c :
  sound_store c ->
  sound_store (Mongo.upsert v d c).2
  /\ Mongo.uniqueIdx (Mongo.upsert v d c).2 = Mongo.uniqueIdx c.
Proof.
  intros [Hall Hidx]. unfold Mongo.upsert.
  destruct (Mongo.violated _ _ _) eqn:E; simpl; [done|].
  pose proof (proj1 (violated_none _ _ _) E) as Hfree.
  destruct (existsb (Mongo.has_id v) (Mongo.docs c)) eqn:Ex; simpl.
  - split; [|done]. split; simpl.
    + apply Forall_replace_id; [apply stored_stored | done].
    + intros f Hf. simpl in *.
      apply NoDup_key_replace; [apply Hidx; left | by apply Hidx | by apply Hfree].
  - split; [|done]. split; simpl.
    + apply Forall_app. split; [done|]. constructor; [|constructor].
      apply stored_stored.
    + intros f Hf. simpl in *. apply NoDup_key_snoc; [by apply Hidx|].
      assert (List.filter (fun d' => negb (Mongo.has_id v d')) (Mongo.docs c)
              = Mongo.docs c) as Hsame.
      { clear -Ex. induction (Mongo.docs c) as [|a l IH]; simpl in *; [done|].
        apply orb_false_iff in Ex as [-> Ex]. simpl. f_equal. by apply IH. }
      rewrite Hsame in Hfree. by apply Hfree.
Qed.

Lemma filter_sound (p : doc -> bool) c :
  sound_store c ->
  sound_store (Mongo.mkCollection (List.filter p (Mongo.docs c)) (Mongo.uniqueIdx c)).
Proof.
  intros [Hall Hidx]. split; simpl.
  - by apply Forall_list_filter.
  - intros f Hf. simpl in *. by apply NoDup_key_filter, Hidx.
Qed.

Lemma collection_save_sound older d w :
  sound_store (store w) ->
  sound_store (store (collection_save older d w).2)
  /\ Mongo.uniqueIdx (store (collection_save older d w).2)
     = Mongo.uniqueIdx (store w).
Proof.
  intros Hwf. destruct (Mongo.serializable d) eqn:Hs.
  - destruct (decide (Mongo.canon (default VNull (d !! "_id")) = VNull)) as [E|E].
    + rewrite collection_save_insert by done. cbn zeta.
      pose proof (insertOne_sound (written_by older d w) (store w) Hwf) as H.
      by destruct (Mongo.insertOne _ (store w)) as [[err r] c].
    + rewrite collection_save_upsert by done.
      pose proof (upsert_sound (Mongo.canon (default VNull (d !! "_id"))) d
                    (store w) Hwf) as H.
      by destruct (Mongo.upsert _ d (store w)) as [[err r] c].
  - destruct (collection_save_thrown older d w Hs) as (_ & -> & _). done.
Qed.

Lemma update_store user w :
  store (update user w).2 = store (collection_save false user w).2
  /\ store (Legacy.update user w).2 = store (collection_save true user w).2.
Proof.
  unfold update, Legacy.update, Legacy.db_save, db_save, db_findOne, mbind,
    M_bind, mret, M_ret. split.
  - destruct (collection_save false user w) as [[e|[[[e|] r] d]] w1];
      cbn [fst snd]; try done; by destruct (Mongo.serializable _).
  - destruct (collection_save true user w) as [[e|[[[e|] [[[ops|] k]|]] d]] w1];
      cbn [fst snd option_bind Mongo.ops]; try done;
      by destruct (Mongo.serializable _).
Qed.

Lemma run_op_sound config op w :
  sound_store (store w) ->
  sound_store (store (run_op config op w).2)
  /\ Mongo.uniqueIdx (store (run_op config op w).2) = Mongo.uniqueIdx (store w).
Proof.
  intros Hwf.
  destruct op as [name email pw extra|match_ query|user|name]; cbn [run_op].
  - pose proof (save_cases config name email pw extra w) as Hs. simpl in Hs.
    destruct (entropy (env w) (entropyDraws w)) as [salt|]; [|by rewrite Hs].
    match type of Hs with
    | match Mongo.violated _ ?u' _ with _ => _ end => set (u := u') in *
    end.
    pose proof (insertOne_sound u (store w) Hwf) as Hi.
    unfold Mongo.insertOne in Hi.
    destruct (Mongo.violated _ _ _); rewrite Hs; [done|]. exact Hi.
  - by destruct (find_run match_ query w) as (-> & _).
  - rewrite (proj1 (update_store user w)). by apply collection_save_sound.
  - destruct (remove_run name w) as (-> & _). cbn [fst snd with_store store].
    split; [by apply filter_sound | done].
Qed.

End WellFormed.

Lemma NoDup_key_lookup f (l : list doc) i j d1 d2 :
  NoDup (map (Mongo.key f) l) ->
  l !! i = Some d1 -> l !! j = Some d2 ->
  Mongo.key f d1 = Mongo.key f d2 -> i = j.
Proof.
  intros Hnd H1 H2 Hk.
  apply (proj1 (NoDup_alt _) Hnd i j (Mongo.key f d1)).
  - by rewrite list_lookup_fmap, H1.
  - by rewrite list_lookup_fmap, H2, Hk.
Qed.

Lemma NoDup_key_elem f (l : list doc) d1 d2 :
  NoDup (map (Mongo.key f) l) -> d1 ∈ l -> d2 ∈ l ->
  Mongo.key f d1 = Mongo.key f d2 -> d1 = d2.
Proof.
  intros Hnd H1 H2 Hk.
  apply list_elem_of_lookup in H1 as [i H1].
  apply list_elem_of_lookup in H2 as [j H2].
  assert (i = j) as -> by (by apply (NoDup_key_lookup f l i j d1 d2)).
  congruence.
Qed.

Lemma Adapter_sound config database :
  sound_store database -> sound_store (Adapter config database).
Proof.
  intros [Hall Hidx]. unfold Adapter. split.
  - rewrite createIndex_docs.
    by destruct (uniqueName config);
      [rewrite createIndex_docs | rewrite dropIndex_docs].
  - apply indexes_hold_createIndex.
    by destruct (uniqueName config);
      [apply indexes_hold_createIndex | apply indexes_hold_dropIndex].
Qed.

(** X3: a collection whose documents satisfy its unique indexes, the
    implicit one on the identifier included, stays that way.  The
    constructor keeps it so, and after any sequence of create, find,
    update and remove calls, whatever their arguments and outcomes, the
    collection has the same indexes as before (no operation builds or
    drops one), every stored document is free of [undefined], and no two
    stored documents share an identifier or a key under an indexed field
    such as [email].  (An identifier may be [null]: [update] stores a
    record under it, once.) *)
Theorem unique_keys_kept config ops w :
  sound_store (store w) ->
  let c' := store (run_ops config ops w).2 in
  sound_store (Adapter config (store w))
  /\ sound_store c'
  /\ Mongo.uniqueIdx c' = Mongo.uniqueIdx (store w)
  /\ (forall f i j d1 d2,
        f ∈ "_id" :: Mongo.uniqueIdx (store w) ->
        Mongo.docs c' !! i = Some d1 -> Mongo.docs c' !! j = Some d2 ->
        Mongo.key f d1 = Mongo.key f d2 -> i = j).
Proof.
  intros Hwf c'. split; [by apply Adapter_sound|]. subst c'.
  assert (Hgen : sound_store (store (run_ops config ops w).2)
                 /\ Mongo.uniqueIdx (store (run_ops config ops w).2)
                    = Mongo.uniqueIdx (store w)).
  { revert w Hwf. induction ops as [|op ops IH]; intros w Hwf; simpl; [done|].
    destruct (run_op_sound config op w Hwf) as [H1 H2].
    destruct (run_op config op w) as [o w1]. simpl in *.
    destruct (IH w1 H1) as [H3 H4].
    destruct (run_ops config ops w1) as [os w2]. simpl in *.
    split; [done | congruence]. }
  destruct Hgen as [[Hall Hidx] Hsame]. split; [done|]. split; [done|].
  intros f i j d1 d2 Hf. rewrite <- Hsame in Hf.
  apply NoDup_key_lookup. by apply Hidx.
Qed.

Lemma world0_sound : sound_store (store world0).
Proof.
  assert (Mongo.docs (store world0) = []) as Hd by compute_done.
  split; [by rewrite Hd|]. intros f _. rewrite Hd. constructor.
Qed.

(** Two updates with the identifier [null] in the run: the first is
    stored, the second rejected. *)
Lemma unique_keys_kept_witness :
  let nobody : doc := <["_id" := VNull]> (<["email" := VStr "n@x.com"]> ∅) in
  let ops := [OpSave "alice" "alice@x.com" "s3cret!" VUndefined;
              OpSave "bob" "bob@x.com" "hunter2" VUndefined;
              OpUpdate (<["email" := VStr "alice@x.com"]> bob);
              OpUpdate nobody;
              OpUpdate (<["email" := VStr "m@x.com"]> nobody);
              OpRemove "alice"] in
  sound_store (store (run_ops config0 ops world0).2)
  /\ Mongo.uniqueIdx (store (run_ops config0 ops world0).2) = ["name"; "email"]
  /\ Mongo.docs (store (run_ops config0 ops world0).2) = [bob; nobody].
Proof.
  intros nobody ops.
  destruct (unique_keys_kept config0 ops world0 world0_sound) as (_ & H1 & H2 & _).
  split; [exact H1|]. split; [rewrite H2|]; compute_done.
Defined.

Section CreateFacts.

Implicit Types (d user : doc) (l : list doc) (idx : list string).

Lemma key_free_str f s user l :
  user !! f = Some (VStr s) ->
  (Mongo.key f user ∉ map (Mongo.key f) l
   <-> forall d, d ∈ l -> field_is f s d = false).
Proof.
  intros Hu. apply key_str in Hu. rewrite Hu. split.
  - intros H d Hd. apply bool_decide_eq_false. intros Hf.
    apply H. apply list_elem_of_fmap. exists d. split; [|done].
    symmetry. by apply key_str.
  - intros H Hin. apply list_elem_of_fmap in Hin as (d & Hk & Hd).
    specialize (H d Hd). apply bool_decide_eq_false in H.
    apply H. apply key_str. by symmetry.
Qed.

Lemma key_free_id pk user l :
  user !! "_id" = Some (VObjectId pk) ->
  (Mongo.key "_id" user ∉ map (Mongo.key "_id") l
   <-> forall d, d ∈ l -> Mongo.has_id (VObjectId pk) d = false).
Proof.
  intros Hu.
  assert (Hk : Mongo.key "_id" user = VObjectId pk).
  { unfold Mongo.key. by rewrite Hu. }
  rewrite Hk. split.
  - intros H d Hd. apply bool_decide_eq_false. intros Hf.
    apply H. apply list_elem_of_fmap. by exists d.
  - intros H Hin. apply list_elem_of_fmap in Hin as (d & Hd1 & Hd).
    specialize (H d Hd). apply bool_decide_eq_false in H. by apply H.
Qed.

(** The record of a create violates no index exactly when its primary
    key, its email and its name are free, as far as they are indexed. *)
Lemma created_free idx user l pk name email :
  user !! "_id" = Some (VObjectId pk) ->
  user !! "name" = Some (VStr name) ->
  user !! "email" = Some (VStr email) ->
  (forall f, f ∈ idx -> f = "name" \/ f = "email") ->
  Mongo.violated idx user l = None <->
  (forall d, d ∈ l -> Mongo.has_id (VObjectId pk) d = false)
  /\ ("email" ∈ idx -> forall d, d ∈ l -> field_is "email" email d = false)
  /\ ("name" ∈ idx -> forall d, d ∈ l -> field_is "name" name d = false).
Proof.
  intros Hid Hn He Hidx. rewrite violated_none. split.
  - intros H. split; [|split].
    + apply (key_free_id pk user l Hid). apply H. left.
    + intros Hin. apply (key_free_str "email" email user l He). apply H. by right.
    + intros Hin. apply (key_free_str "name" name user l Hn). apply H. by right.
  - intros (H1 & H2 & H3) f Hf. apply elem_of_cons in Hf as [->|Hf].
    + by apply (key_free_id pk user l Hid).
    + destruct (Hidx f Hf) as [-> | ->].
      * apply (key_free_str "name" name user l Hn). by apply H3.
      * apply (key_free_str "email" email user l He). by apply H2.
Qed.

End CreateFacts.

(** X4: on a collection indexed on nothing but name and email, a create
    with a non-empty secret under a non-empty token lifetime succeeds
    exactly when the hasher's entropy source delivers, the fresh primary
    key is held by no stored document, no stored record has the email if
    email is indexed, and no stored record has the name if name is
    indexed.  (The two provisos keep the statement to the calls that
    reach the hashing step and whose secret the hasher takes: the
    duration parser throws on an empty string and the hasher refuses an
    empty secret, neither of which the embedding of the two libraries
    covers.) *)
Theorem save_succeeds_iff config name email pw extra w :
  pw <> EmptyString ->
  signup_tokenExpiration config <> EmptyString ->
  (forall f, f ∈ Mongo.uniqueIdx (store w) -> f = "name" \/ f = "email") ->
  let pk := primaryKey (env w) (keysIssued w) in
  let l := Mongo.docs (store w) in
  (exists r, (save config name email pw extra w).1 = Done None (JDoc r)) <->
  is_Some (entropy (env w) (entropyDraws w))
  /\ (forall d, d ∈ l -> Mongo.has_id (VObjectId pk) d = false)
  /\ ("email" ∈ Mongo.uniqueIdx (store w) ->
      forall d, d ∈ l -> field_is "email" email d = false)
  /\ ("name" ∈ Mongo.uniqueIdx (store w) ->
      forall d, d ∈ l -> field_is "name" name d = false).
Proof.
  intros _ _ Hidx pk l. subst pk l.
  pose proof (save_cases config name email pw extra w) as Hs. simpl in Hs.
  destruct (entropy (env w) (entropyDraws w)) as [salt|].
  - match type of Hs with
    | match Mongo.violated _ ?u' _ with _ => _ end => set (u := u') in *
    end.
    pose proof (created_free (Mongo.uniqueIdx (store w)) u
                  (Mongo.docs (store w)) (primaryKey (env w) (keysIssued w))
                  name email) as Hfree.
    destruct Hfree as [Hf1 Hf2]; [| | |done|].
    + unfold u. by rewrite lookup_insert_eq.
    + unfold u. destruct (useExtra config); by simplify_map_eq.
    + unfold u. destruct (useExtra config); by simplify_map_eq.
    + destruct (Mongo.violated _ u _) eqn:E; rewrite Hs; simpl.
      * split; [by intros [r Hr]|]. intros [_ H].
        specialize (Hf2 H). discriminate.
      * split; [|by eexists]. intros _. split; [by eexists|]. by apply Hf1.
  - rewrite Hs. simpl. split; [by intros [r Hr] | by intros [[x Hx] _]].
Qed.

Lemma save_succeeds_iff_witness :
  exists r, (save config0 "alice" "alice@x.com" "s3cret!" VUndefined world0).1
            = Done None (JDoc r).
Proof.
  assert (Mongo.docs (store world0) = []) as Hd by compute_done.
  apply (save_succeeds_iff config0 "alice" "alice@x.com" "s3cret!"
           VUndefined world0).
  - discriminate.
  - discriminate.
  - intros f Hf.
    assert (Mongo.uniqueIdx (store world0) = ["name"; "email"]) as Hi
      by compute_done.
    rewrite Hi in Hf.
    apply elem_of_cons in Hf as [->|Hf]; [by left|].
    apply list_elem_of_singleton in Hf as ->. by right.
  - rewrite Hd. split; [by eexists|].
    repeat split; intros; by match goal with H : _ ∈ [] |- _ =>
                                apply elem_of_nil in H end.
Defined.

(** X5: with [uniqueName] off, the constructor leaves name unindexed, so
    on a collection it has set up (indexed on email at most) a create
    for a name that is already taken succeeds as long as the email and
    the primary key are free: both records are stored. *)
Theorem same_name_allowed config w0 name email pw extra d0 :
  uniqueName config = false ->
  (forall f, f ∈ Mongo.uniqueIdx (store w0) -> f = "name" \/ f = "email") ->
  let w := with_store (Adapter config (store w0)) w0 in
  let pk := primaryKey (env w0) (keysIssued w0) in
  d0 ∈ Mongo.docs (store w0) ->
  field_is "name" name d0 = true ->
  is_Some (entropy (env w0) (entropyDraws w0)) ->
  (forall d, d ∈ Mongo.docs (store w0) ->
             Mongo.has_id (VObjectId pk) d = false
             /\ field_is "email" email d = false) ->
  exists r, (save config name email pw extra w).1 = Done None (JDoc r)
            /\ r !! "name" = Some (VStr name)
            /\ Mongo.docs (store (save config name email pw extra w).2)
               = (Mongo.docs (store w0) ++ [Mongo.stored r])%list.
Proof.
  intros Hoff Hidx w pk Hd0 Hname [salt Hsalt] Hfree.
  set (database := store w0) in *.
  assert (Hdocs : Mongo.docs (Adapter config database) = Mongo.docs database).
  { unfold Adapter. rewrite Hoff. by rewrite createIndex_docs, dropIndex_docs. }
  assert (Hno : "name" ∉ Mongo.uniqueIdx (Adapter config database)).
  { unfold Adapter. rewrite Hoff. intros H.
    apply (createIndex_other "email") in H; [|done]. by apply dropIndex_gone in H. }
  assert (Hsub : forall f, f ∈ Mongo.uniqueIdx (Adapter config database) ->
                           f = "name" \/ f = "email").
  { unfold Adapter. rewrite Hoff. intros f Hf.
    destruct (decide (f = "email")) as [->|Hne]; [by right|].
    apply (createIndex_other "email") in Hf; [|done].
    unfold Mongo.dropIndex in Hf. simpl in Hf. apply list_elem_of_In in Hf.
    apply filter_In in Hf as [Hf _]. apply Hidx. by apply list_elem_of_In. }
  pose proof (save_cases config name email pw extra w) as Hs. simpl in Hs.
  rewrite Hsalt in Hs. fold pk in Hs.
  match type of Hs with
  | match Mongo.violated _ ?u' _ with _ => _ end => set (u := u') in *
  end.
  assert (Hun : u !! "name" = Some (VStr name)).
  { unfold u. destruct (useExtra config); by simplify_map_eq. }
  assert (Hv : Mongo.violated (Mongo.uniqueIdx (Adapter config database)) u
                 (Mongo.docs (Adapter config database)) = None).
  { apply (created_free _ u _ pk name email); try done.
    - unfold u. by rewrite lookup_insert_eq.
    - unfold u. destruct (useExtra config); by simplify_map_eq.
    - rewrite Hdocs. split; [|split].
      + intros d Hd. by apply Hfree.
      + intros _ d Hd. by apply Hfree.
      + intros Hin. by destruct Hno. }
  rewrite Hv in Hs. rewrite Hs. exists u. simpl. by rewrite Hdocs.
Qed.

Lemma same_name_allowed_witness :
  exists r,
    (save (mkConfig false false "24h") "alice" "alice2@x.com" "pw" VUndefined
          (with_store (Adapter (mkConfig false false "24h") (store world1))
                      world1)).1 = Done None (JDoc r)
    /\ r !! "name" = Some (VStr "alice").
Proof.
  assert (Mongo.docs (store world1) = [alice]) as Hd by compute_done.
  destruct (same_name_allowed (mkConfig false false "24h") world1
              "alice" "alice2@x.com" "pw" VUndefined alice) as (r & H1 & H2 & _).
  - reflexivity.
  - intros f Hf.
    assert (Mongo.uniqueIdx (store world1) = ["name"; "email"]) as Hi
      by compute_done.
    rewrite Hi in Hf.
    apply elem_of_cons in Hf as [->|Hf]; [by left|].
    apply list_elem_of_singleton in Hf as ->. by right.
  - compute_done.
  - compute_done.
  - by eexists.
  - intros d Hin. rewrite Hd in Hin. apply list_elem_of_singleton in Hin as ->.
    split; compute_done.
  - exists r. split; assumption.
Defined.

(** ** How the operations compose *)

(** X6: under the unique index on email, a create that succeeds can be
    looked up by its email at once, with no assumption on what the
    collection held: find by that email returns the stored copy of the
    created record.  The same holds for the name under the unique index
    on name. *)
Theorem save_then_find_indexed config name email pw extra w r :
  (save config name email pw extra w).1 = Done None (JDoc r) ->
  let w' := (save config name email pw extra w).2 in
  ("email" ∈ Mongo.uniqueIdx (store w) ->
   find "email" email w' = (Done None (JDoc (Mongo.stored r)), w'))
  /\ ("name" ∈ Mongo.uniqueIdx (store w) ->
      find "name" name w' = (Done None (JDoc (Mongo.stored r)), w')).
Proof.
  intros Hok w'. subst w'.
  pose proof (save_cases config name email pw extra w) as Hs. simpl in Hs.
  destruct (save config name email pw extra w) as [o w'].
  destruct (entropy (env w) (entropyDraws w)) as [salt|]; [|by inversion Hs; subst].
  match type of Hs with
  | match Mongo.violated _ ?u' _ with _ => _ end => set (u := u') in *
  end.
  destruct (Mongo.violated _ u _) eqn:E; [by inversion Hs; subst|].
  simpl in Hok. subst o. injection Hs as Hr ->. cbn [fst snd].
  pose proof (proj1 (violated_none _ _ _) E) as Hfree.
  assert (Hue : u !! "email" = Some (VStr email)).
  { unfold u. destruct (useExtra config); by simplify_map_eq. }
  assert (Hun : u !! "name" = Some (VStr name)).
  { unfold u. destruct (useExtra config); by simplify_map_eq. }
  assert (Hgen : forall f s, plain_key f = true -> u !! f = Some (VStr s) ->
            f ∈ Mongo.uniqueIdx (store w) ->
            forall W, store W = Mongo.mkCollection
                                  (Mongo.docs (store w) ++ [Mongo.stored u])
                                  (Mongo.uniqueIdx (store w)) ->
            find f s W = (Done None (JDoc (Mongo.stored u)), W)).
  { intros f s Hp Hu Hin W HW.
    destruct (find_cases f s W Hp) as [-> _]. rewrite HW. simpl.
    rewrite (find_app_fresh _ _ (Mongo.stored u)); [done| |].
    - apply find_none_forall, Forall_forall.
      apply (key_free_str f s u _ Hu). apply Hfree. by right.
    - rewrite field_is_stored. by apply bool_decide_eq_true. }
  rewrite Hr. split; intros Hin.
  - by apply Hgen.
  - by apply Hgen.
Qed.

Lemma save_then_find_indexed_witness :
  find "email" "alice@x.com" world1 = (Done None (JDoc (Mongo.stored alice)), world1).
Proof.
  apply (proj1 (save_then_find_indexed config0 "alice" "alice@x.com" "s3cret!"
                  VUndefined world0 alice ltac:(compute_done))).
  compute_done.
Defined.

(** X7: a create followed by a remove of the same name undoes it.  When
    no stored record had the name, the remove calls back with [true] and
    the collection is exactly the one from before the create.  The older
    variant does the same through [username]. *)
Theorem save_then_remove config name email pw extra w :
  (forall d, d ∈ Mongo.docs (store w) ->
             field_is "name" name d = false /\ field_is "username" name d = false) ->
  (forall r, (save config name email pw extra w).1 = Done None (JDoc r) ->
     let w' := (save config name email pw extra w).2 in
     (remove name w').1 = Done None JTrue
     /\ store (remove name w').2 = store w)
  /\ (forall r, (Legacy.save config name email pw w).1 = Done None (JDoc r) ->
        let w' := (Legacy.save config name email pw w).2 in
        (Legacy.remove name w').1 = Done None JTrue
        /\ store (Legacy.remove name w').2 = store w).
Proof.
  intros Hfresh.
  assert (Hgen : forall f (u : doc) W,
            (forall d, d ∈ Mongo.docs (store w) -> field_is f name d = false) ->
            field_is f name u = true ->
            store W = Mongo.mkCollection (Mongo.docs (store w) ++ [Mongo.stored u])
                                         (Mongo.uniqueIdx (store w)) ->
            ((length (List.filter (field_is f name) (Mongo.docs (store W))) =? 0)%nat
             = false)
            /\ Mongo.mkCollection
                 (List.filter (fun d => negb (field_is f name d)) (Mongo.docs (store W)))
                 (Mongo.uniqueIdx (store W)) = store w).
  { intros f u W Hf Hu HW. rewrite HW. simpl.
    assert (Forall (fun d => field_is f name d = false) (Mongo.docs (store w)))
      as Hall by (by apply Forall_forall).
    rewrite !List.filter_app. simpl. rewrite field_is_stored, Hu. simpl.
    apply filter_none in Hall as [-> ->]. simpl.
    split; [done|]. rewrite app_nil_r. by destruct (store w). }
  split; intros r Hok w'; subst w'.
  - pose proof (save_cases config name email pw extra w) as Hs. simpl in Hs.
    destruct (save config name email pw extra w) as [o w'].
    destruct (entropy (env w) (entropyDraws w)) as [salt|];
      [|by inversion Hs; subst].
    match type of Hs with
    | match Mongo.violated _ ?u' _ with _ => _ end => set (u := u') in *
    end.
    destruct (Mongo.violated _ u _); [by inversion Hs; subst|].
    simpl in Hok. subst o. injection Hs as Hr ->. cbn [fst snd].
    match goal with |- context [remove name ?W] => set (W1 := W) end.
    destruct (remove_run name W1) as [-> _]. cbn [fst snd with_store store].
    destruct (Hgen "name" u W1) as [-> ->]; try done.
    + intros d Hd. by apply Hfresh.
    + unfold u, field_is. apply bool_decide_eq_true.
      destruct (useExtra config); by simplify_map_eq.
  - pose proof (legacy_save_cases config name email pw w) as Hs. simpl in Hs.
    destruct (Legacy.save config name email pw w) as [o w'].
    destruct (entropy (env w) (entropyDraws w)) as [salt|];
      [|by inversion Hs; subst].
    match type of Hs with
    | match Mongo.violated _ ?u' _ with _ => _ end => set (u := u') in *
    end.
    destruct (Mongo.violated _ u _); [by inversion Hs; subst|].
    simpl in Hok. subst o. injection Hs as Hr ->. cbn [fst snd].
    match goal with |- context [Legacy.remove name ?W] => set (W1 := W) end.
    destruct (remove_run name W1) as [_ ->]. cbn [fst snd with_store store].
    destruct (Hgen "username" u W1) as [-> ->]; try done.
    + intros d Hd. by apply Hfresh.
    + unfold u, field_is. apply bool_decide_eq_true. by simplify_map_eq.
Qed.

Lemma save_then_remove_witness :
  (remove "alice" world1).1 = Done None JTrue
  /\ store (remove "alice" world1).2 = store world0.
Proof.
  apply (proj1 (save_then_remove config0 "alice" "alice@x.com" "s3cret!"
                  VUndefined world0
                  ltac:(intros d Hd;
                        assert (Mongo.docs (store world0) = []) as Hn
                          by compute_done;
                        rewrite Hn in Hd; by apply elem_of_nil in Hd))
               alice).
  compute_done.
Defined.

(** X8: a remove is thorough.  Whatever it answered, afterwards no record
    with that name is found, a second remove of the name answers with
    the cannot-find error, and that second remove changes nothing.  In
    the older variant the same holds for [username]. *)
Theorem remove_then_gone name w :
  let gone := LockitError ("lockit - Cannot find user " ++ quote ++ name ++ quote) in
  (let w' := (remove name w).2 in
   find "name" name w' = (Done None JNull, w')
   /\ (remove name w').1 = Done (Some gone) JUndefined
   /\ store (remove name w').2 = store w')
  /\ (let w' := (Legacy.remove name w).2 in
      Legacy.find "username" name w' = (Done None JNull, w')
      /\ (Legacy.remove name w').1 = Done (Some gone) JUndefined
      /\ store (Legacy.remove name w').2 = store w').
Proof.
  intros gone.
  assert (Hgen : forall f W,
            store W = Mongo.mkCollection
                        (List.filter (fun d => negb (field_is f name d))
                                     (Mongo.docs (store w)))
                        (Mongo.uniqueIdx (store w)) ->
            Forall (fun d => field_is f name d = false) (Mongo.docs (store W))).
  { intros f W ->. simpl. apply Forall_forall. intros d Hd.
    apply list_elem_of_In in Hd. apply filter_In in Hd as [_ Hd].
    by apply negb_true_iff. }
  destruct (remove_run name w) as [Hr Hl]. fold gone in Hr, Hl. split.
  - rewrite Hr. cbn [fst snd].
    match goal with |- context [remove name ?W] => set (W1 := W) end.
    pose proof (Hgen "name" W1 eq_refl) as Hall.
    destruct (find_cases "name" name W1) as [-> _]; [done|].
    destruct (remove_run name W1) as [-> _]. fold gone. cbn [fst snd with_store store].
    rewrite (proj2 (find_none_forall _ _) Hall).
    apply filter_none in Hall as [-> ->]. simpl.
    split; [done|]. split; [done|]. by destruct (store W1).
  - rewrite Hl. cbn [fst snd].
    match goal with |- context [Legacy.remove name ?W] => set (W1 := W) end.
    pose proof (Hgen "username" W1 eq_refl) as Hall.
    destruct (find_cases "username" name W1) as [_ ->]; [done|].
    destruct (remove_run name W1) as [_ ->]. fold gone. cbn [fst snd with_store store].
    rewrite (proj2 (find_none_forall _ _) Hall).
    apply filter_none in Hall as [-> ->]. simpl.
    split; [done|]. split; [done|]. by destruct (store W1).
Qed.

(** ** What an update touches *)

Section UpdateFrame.

Implicit Types (d user : doc) (v : value) (l : list doc) (w : World).

Lemma filter_replace_id v d l :
  Mongo.has_id v d = true ->
  List.filter (fun d' => negb (Mongo.has_id v d')) (Mongo.replace_id v d l)
  = List.filter (fun d' => negb (Mongo.has_id v d')) l.
Proof.
  intros Hd. induction l as [|a l IH]; simpl; [done|].
  destruct (Mongo.has_id v a) eqn:Ea; simpl.
  - by rewrite Hd.
  - by rewrite Ea, IH.
Qed.

Lemma length_replace_id v d l : length (Mongo.replace_id v d l) = length l.
Proof.
  induction l as [|a l IH]; simpl; [done|].
  destruct (Mongo.has_id v a); simpl; by rewrite ?IH.
Qed.

(** With distinct identifiers, replacing by identifier is an assignment
    at the position of the record that holds it. *)
Lemma replace_id_insert v x l i d :
  NoDup (map (Mongo.key "_id") l) -> l !! i = Some d ->
  Mongo.has_id v d = true ->
  Mongo.replace_id v x l = <[i := x]> l.
Proof.
  revert i. induction l as [|a l IH]; intros i Hnd Hi Hd; [done|].
  simpl. destruct i as [|i]; simpl in Hi.
  - injection Hi as ->. by rewrite Hd.
  - destruct (Mongo.has_id v a) eqn:Ea.
    + exfalso. simpl in Hnd. apply NoDup_cons in Hnd as [Hn _]. apply Hn.
      apply list_elem_of_fmap. exists d. split; [|by eapply list_elem_of_lookup_2].
      unfold Mongo.has_id in Ea, Hd.
      apply bool_decide_eq_true in Ea. apply bool_decide_eq_true in Hd.
      congruence.
    + simpl. f_equal. simpl in Hnd. apply NoDup_cons in Hnd as [_ Hnd].
      by apply IH.
Qed.

Lemma legacy_update_agree user w :
  user !! "_id" <> Some VNull ->
  store (Legacy.update user w).2 = store (update user w).2.
Proof.
  intros H. destruct (update_store user w) as [-> ->].
  by rewrite collection_save_agree.
Qed.

(** What [collection.save] leaves of the collection, for either
    driver. *)
Lemma collection_save_docs older user w :
  let id := default VUndefined (written_by older user w !! "_id") in
  let other := fun d => negb (Mongo.has_id id d) in
  let c' := store (collection_save older user w).2 in
  List.filter other (Mongo.docs c') = List.filter other (Mongo.docs (store w))
  /\ (length (Mongo.docs (store w)) <= length (Mongo.docs c')
      <= S (length (Mongo.docs (store w))))%nat.
Proof.
  intros id other c'. subst c'.
  destruct (Mongo.serializable user) eqn:Hser.
  - pose proof (collection_save_cases older user w Hser) as Hs.
    cbv zeta in Hs. fold id in Hs.
    destruct (collection_save older user w) as [[e|[[[e|] r] d]] w1];
      cbn [fst snd]; [done| |].
    + destruct Hs as (_ & _ & ->). split; [done | lia].
    + destruct Hs as (_ & Hf & ->). apply find_some in Hf as [_ Hid].
      destruct (existsb _ _).
      * split; [by apply filter_replace_id|]. rewrite length_replace_id. lia.
      * split.
        -- rewrite List.filter_app. simpl. subst other. simpl.
           rewrite Hid. simpl. apply app_nil_r.
        -- rewrite length_app. simpl. lia.
  - destruct (collection_save_thrown older user w Hser) as (_ & -> & _).
    split; [done | lia].
Qed.

Lemma with_store_same w : with_store (store w) w = w.
Proof. by destruct w. Qed.

End UpdateFrame.

(** X9: an update touches at most the record with the identifier it
    writes, whatever it is given and however it ends.  The records with
    any other identifier are the same, in the same order, before and
    after, and the collection keeps its length or grows by one.  The
    same holds for the older variant with the identifier its driver
    writes, and off the identifier [null] the two variants leave the
    same collection. *)
Theorem update_frame user w :
  let frame := fun (older : bool) (c' : Mongo.Collection) =>
    let id := default VUndefined (written_by older user w !! "_id") in
    let other := fun d => negb (Mongo.has_id id d) in
    List.filter other (Mongo.docs c') = List.filter other (Mongo.docs (store w))
    /\ (length (Mongo.docs (store w)) <= length (Mongo.docs c')
        <= S (length (Mongo.docs (store w))))%nat in
  frame false (store (update user w).2)
  /\ frame true (store (Legacy.update user w).2)
  /\ (user !! "_id" <> Some VNull ->
      store (Legacy.update user w).2 = store (update user w).2).
Proof.
  intros frame. subst frame. cbv beta.
  destruct (update_store user w) as [H1 H2].
  split; [|split].
  - rewrite H1. apply collection_save_docs.
  - rewrite H2. apply collection_save_docs.
  - apply legacy_update_agree.
Qed.

(** X10: on a collection with distinct keys, an update that keeps the
    identifier and the indexed fields of a stored record, with a record
    the serializer accepts, always succeeds: it puts the stored copy of
    the new record at the position of the old one and returns it, and
    nothing else changes.  Writing a stored record back as it was found
    changes nothing at all. *)
Theorem update_in_place user w i d :
  wf_store (store w) ->
  Mongo.docs (store w) !! i = Some d ->
  (forall f, f ∈ "_id" :: Mongo.uniqueIdx (store w) ->
             Mongo.key f user = Mongo.key f d) ->
  Mongo.serializable user = true ->
  update user w
  = (Done None (JDoc (Mongo.stored user)),
     with_store (Mongo.mkCollection (<[i := Mongo.stored user]> (Mongo.docs (store w)))
                                    (Mongo.uniqueIdx (store w))) w)
  /\ (user = d -> update user w = (Done None (JDoc d), w)).
Proof.
  intros [Hall Hidx] Hi Hkeys Hser.
  assert (Hin : d ∈ Mongo.docs (store w)) by (by eapply list_elem_of_lookup_2).
  assert (Hcan : canonical d).
  { eapply Forall_forall in Hall; [exact Hall | exact Hin]. }
  set (v := Mongo.canon (default VNull (user !! "_id"))).
  assert (Hv : v = Mongo.key "_id" d).
  { rewrite <- (Hkeys "_id") by left. done. }
  assert (Hvn : v <> VNull) by (rewrite Hv; apply Hcan).
  assert (Hcv : Mongo.canon v = v) by apply canon_idem.
  assert (Hd : Mongo.has_id v d = true).
  { unfold Mongo.has_id. apply bool_decide_eq_true. by rewrite Hcv. }
  assert (Hu : Mongo.has_id v (Mongo.stored user) = true).
  { rewrite has_id_stored. unfold Mongo.has_id. apply bool_decide_eq_true.
    by rewrite Hcv. }
  assert (Hfree : Mongo.violated (Mongo.uniqueIdx (store w)) user
                    (List.filter (fun d' => negb (Mongo.has_id v d'))
                                 (Mongo.docs (store w))) = None).
  { apply violated_none. intros f Hf Hc.
    apply list_elem_of_fmap in Hc as (d' & Hk & Hd').
    apply list_elem_of_In, filter_In in Hd' as [Hd' Hno].
    apply list_elem_of_In in Hd'.
    assert (d' = d) as ->.
    { apply (NoDup_key_elem f (Mongo.docs (store w))); [by apply Hidx|done|done|].
      by rewrite <- Hk, Hkeys. }
    by rewrite Hd in Hno. }
  assert (Hex : existsb (Mongo.has_id v) (Mongo.docs (store w)) = true).
  { apply existsb_exists. exists d. split; [by apply list_elem_of_In | done]. }
  assert (Hrep : Mongo.replace_id v (Mongo.stored user) (Mongo.docs (store w))
                 = <[i := Mongo.stored user]> (Mongo.docs (store w))).
  { apply (replace_id_insert v _ _ i d); [|done|done]. apply Hidx. left. }
  assert (Hrun : update user w
    = (Done None (JDoc (Mongo.stored user)),
       with_store (Mongo.mkCollection (<[i := Mongo.stored user]> (Mongo.docs (store w)))
                                      (Mongo.uniqueIdx (store w))) w)).
  { unfold update, db_save, mbind, M_bind, mret, M_ret.
    rewrite collection_save_upsert by done. fold v.
    unfold Mongo.upsert. rewrite Hfree, Hex. cbn [fst snd].
    unfold db_findOne. rewrite serializable_id_filter, findOne_id.
    cbn [store with_store Mongo.docs].
    assert (Hfind : List.find (Mongo.has_id (default VUndefined (user !! "_id")))
                      (Mongo.replace_id v (Mongo.stored user) (Mongo.docs (store w)))
                    = Some (Mongo.stored user)).
    { rewrite (find_ext_eq _ (Mongo.has_id v)).
      - by apply find_replace_id.
      - intros x. unfold Mongo.has_id, v. by destruct (user !! "_id") as [[]|]. }
    rewrite Hfind. simpl. by rewrite Hrep. }
  split; [exact Hrun|].
  intros ->. rewrite Hrun. destruct Hcan as [-> _].
  rewrite list_insert_id by done.
  replace (Mongo.mkCollection (Mongo.docs (store w)) (Mongo.uniqueIdx (store w)))
    with (store w) by (by destruct (store w)).
  by rewrite with_store_same.
Qed.

Lemma world2_idx : Mongo.uniqueIdx (store world2) = ["name"; "email"].
Proof. compute_done. Qed.

Lemma world2_docs : Mongo.docs (store world2) = [alice; bob].
Proof. compute_done. Qed.

Lemma world2_wf : wf_store (store world2).
Proof.
  split.
  - rewrite world2_docs. repeat constructor; compute_done.
  - intros f Hf. rewrite world2_idx in Hf. rewrite world2_docs.
    repeat (apply elem_of_cons in Hf as [->|Hf]; [compute_done|]).
    destruct (proj1 (elem_of_nil f) Hf).
Qed.

Lemma update_in_place_witness :
  update (<["failedLoginAttempts" := VNum 3]> bob) world2
  = (Done None (JDoc (<["failedLoginAttempts" := VNum 3]> bob)),
     with_store (Mongo.mkCollection [alice; <["failedLoginAttempts" := VNum 3]> bob]
                                    ["name"; "email"]) world2).
Proof.
  assert (Hi : Mongo.docs (store world2) !! 1%nat = Some bob) by compute_done.
  assert (Hk : forall f, f ∈ "_id" :: Mongo.uniqueIdx (store world2) ->
                 Mongo.key f (<["failedLoginAttempts" := VNum 3]> bob)
                 = Mongo.key f bob).
  { intros f Hf. rewrite world2_idx in Hf.
    repeat (apply elem_of_cons in Hf as [->|Hf]; [compute_done|]).
    destruct (proj1 (elem_of_nil f) Hf). }
  destruct (update_in_place (<["failedLoginAttempts" := VNum 3]> bob) world2
              1%nat bob world2_wf Hi Hk ltac:(compute_done)) as [Hrun _].
  rewrite Hrun, world2_docs, world2_idx.
  assert (Mongo.stored (<["failedLoginAttempts" := VNum 3]> bob)
          = <["failedLoginAttempts" := VNum 3]> bob) as -> by compute_done.
  reflexivity.
Defined.

(** ** Failed creates *)

(** X11: a create is all or nothing, in both variants: it either
    succeeds and appends the stored copy of the record it returns, or
    leaves the collection as it was.  The only error [save] ever hands
    to its callback is the hashing failure: a rejected write never
    reaches the callback and escapes as a [TypeError] instead.  The
    older variant never throws: it reports every failure through the
    callback, a rejected write with [null] as the result. *)
Theorem save_all_or_nothing config name email pw extra w :
  let o := (save config name email pw extra w).1 in
  let w' := (save config name email pw extra w).2 in
  let lo := (Legacy.save config name email pw w).1 in
  let lw' := (Legacy.save config name email pw w).2 in
  ((exists r, o = Done None (JDoc r)
              /\ Mongo.docs (store w') = (Mongo.docs (store w) ++ [Mongo.stored r])%list)
   \/ (store w' = store w
       /\ (o = Done (Some HashingFailure) JUndefined
           \/ exists m, o = Uncaught (TypeError m))))
  /\ (forall e res, o = Done (Some e) res -> e = HashingFailure)
  /\ ((exists r, lo = Done None (JDoc r)
                 /\ Mongo.docs (store lw')
                    = (Mongo.docs (store w) ++ [Mongo.stored r])%list)
      \/ (store lw' = store w
          /\ (lo = Done (Some HashingFailure) JUndefined
              \/ exists f, lo = Done (Some (DuplicateKey f)) JNull)))
  /\ (forall e, lo <> Uncaught e).
Proof.
  intros o w' lo lw'. subst o w' lo lw'.
  assert (Hnew :
    ((exists r, (save config name email pw extra w).1 = Done None (JDoc r)
        /\ Mongo.docs (store (save config name email pw extra w).2)
           = (Mongo.docs (store w) ++ [Mongo.stored r])%list)
     \/ (store (save config name email pw extra w).2 = store w
         /\ ((save config name email pw extra w).1
               = Done (Some HashingFailure) JUndefined
             \/ exists m, (save config name email pw extra w).1
                          = Uncaught (TypeError m))))
    /\ (forall e res, (save config name email pw extra w).1 = Done (Some e) res ->
                      e = HashingFailure)).
  { pose proof (save_cases config name email pw extra w) as Hs. simpl in Hs.
    destruct (entropy (env w) (entropyDraws w)) as [salt|].
    - destruct (Mongo.violated _ _ _); rewrite Hs; cbn [fst snd store].
      + split; [|discriminate]. right. split; [done|]. right. by eexists.
      + split; [|discriminate]. left. eexists. by split.
    - rewrite Hs. cbn [fst snd store]. split.
      + right. split; [done|]. by left.
      + by intros e res [= <- _]. }
  destruct Hnew as [Hn1 Hn2]. split; [exact Hn1|]. split; [exact Hn2|].
  pose proof (legacy_save_cases config name email pw w) as Hl. simpl in Hl.
  destruct (entropy (env w) (entropyDraws w)) as [salt|].
  - destruct (Mongo.violated _ _ _) as [f|]; rewrite Hl; cbn [fst snd store].
    + split; [|discriminate]. right. split; [done|]. right. by exists f.
    + split; [|discriminate]. left. eexists. by split.
  - rewrite Hl. cbn [fst snd store]. split; [|discriminate].
    right. split; [done|]. by left.
Qed.

(** ** Lookup and removal under a unique index *)

Section UniqueLookup.

Implicit Types (d : doc) (l : list doc) (w : World).

Lemma field_is_key f q d : field_is f q d = true <-> Mongo.key f d = VStr q.
Proof. unfold field_is. by rewrite bool_decide_eq_true, key_str. Qed.

(** Under distinct keys, the record holding a string is alone in doing
    so. *)
Lemma unique_field_split f q l d :
  NoDup (map (Mongo.key f) l) -> d ∈ l -> field_is f q d = true ->
  exists l1 l2, l = (l1 ++ d :: l2)%list
    /\ Forall (fun x => field_is f q x = false) l1
    /\ Forall (fun x => field_is f q x = false) l2.
Proof.
  intros Hnd Hin Hd.
  apply list_elem_of_split in Hin as (l1 & l2 & ->).
  exists l1, l2. split; [done|].
  rewrite map_app in Hnd. simpl in Hnd.
  apply NoDup_app in Hnd as (_ & H1 & H2). apply NoDup_cons in H2 as [H2 _].
  apply field_is_key in Hd.
  split; apply Forall_forall; intros x Hx; apply not_true_is_false;
    intros Hfx; apply field_is_key in Hfx.
  - apply (H1 (Mongo.key f x)); [by apply list_elem_of_fmap_2|].
    rewrite Hfx, <- Hd. left.
  - apply H2. rewrite Hd, <- Hfx. by apply list_elem_of_fmap_2.
Qed.

End UniqueLookup.

(** X12: on a collection with distinct keys, a unique index makes lookup
    and removal exact.  A stored record whose indexed field holds the
    value is the one [find] returns, in both variants, for every indexed
    field but the two names, [__proto__] and [toBSON], that [find]
    cannot look up; and under the index on [name], [remove] takes out
    that one record and leaves every other record in place. *)
Theorem unique_index_exact f q w d :
  wf_store (store w) ->
  f ∈ Mongo.uniqueIdx (store w) ->
  f <> "__proto__" ->
  f <> "toBSON" ->
  d ∈ Mongo.docs (store w) ->
  d !! f = Some (VStr q) ->
  find f q w = (Done None (JDoc d), w)
  /\ Legacy.find f q w = (Done None (JDoc d), w)
  /\ (f = "name" ->
      (remove q w).1 = Done None JTrue
      /\ exists l1 l2,
           Mongo.docs (store w) = (l1 ++ d :: l2)%list
           /\ Mongo.docs (store (remove q w).2) = (l1 ++ l2)%list).
Proof.
  intros [_ Hidx] Hf Hp Ht Hin Hd.
  assert (Hpl : plain_key f = true) by (by apply plain_key_ne).
  assert (Hfd : field_is f q d = true) by (by apply bool_decide_eq_true).
  destruct (unique_field_split f q _ d (Hidx f ltac:(by right)) Hin Hfd)
    as (l1 & l2 & Hl & H1 & H2).
  assert (Hfind : List.find (field_is f q) (Mongo.docs (store w)) = Some d).
  { rewrite Hl. clear Hl. induction H1 as [|a l1 Ha _ IH]; simpl.
    - by rewrite Hfd.
    - by rewrite Ha. }
  destruct (find_cases f q w Hpl) as [-> ->]. rewrite Hfind.
  split; [done|]. split; [done|]. intros ->.
  destruct (remove_run q w) as [-> _]. cbn [fst snd store with_store Mongo.docs].
  rewrite Hl, !List.filter_app. simpl. rewrite Hfd. simpl.
  destruct (filter_none _ _ H1) as [-> ->].
  destruct (filter_none _ _ H2) as [-> ->]. simpl.
  split; [done|]. by exists l1, l2.
Qed.

Lemma unique_index_exact_witness :
  find "email" "bob@x.com" world2 = (Done None (JDoc bob), world2).
Proof.
  apply (unique_index_exact "email" "bob@x.com" world2 bob world2_wf).
  - rewrite world2_idx. compute_done.
  - done.
  - done.
  - rewrite world2_docs. compute_done.
  - compute_done.
Defined.

(** ** The older variant's records *)

(** X13: the record of a successful create in the older variant.  Its
    stored copy is the last document of the collection, and is the
    returned record itself when both dates are dates a [Date] can hold
    (an expiry out of range is returned as an invalid date and stored
    as the date of time value 0).  The record holds the handle under
    [username], the email, the version-4 token issued on this call, the
    date of the first clock reading, a zero failed-login counter, the
    fresh primary key, and under [hash] the salt followed by the
    derivation of the secret; it has no [name], [salt], [derived_key]
    or [extra] field. *)
Theorem legacy_save_record config name email pw w r :
  (Legacy.save config name email pw w).1 = Done None (JDoc r) ->
  let w' := (Legacy.save config name email pw w).2 in
  let token := Uuid.v4 (random (env w) (randomDraws w)) in
  let t1 := clock (env w) (clockReads w) in
  Mongo.docs (store w') = (Mongo.docs (store w) ++ [Mongo.stored r])%list
  /\ (r !! "signupTimestamp" <> Some VInvalidDate ->
      r !! "signupTokenExpires" <> Some VInvalidDate -> Mongo.stored r = r)
  /\ (r !! "signupTokenExpires" = Some VInvalidDate ->
      Mongo.stored r !! "signupTokenExpires" = Some (VDate 0))
  /\ Mongo.uniqueIdx (store w') = Mongo.uniqueIdx (store w)
  /\ r !! "username" = Some (VStr name)
  /\ r !! "email" = Some (VStr email)
  /\ r !! "signupToken" = Some (VStr token)
  /\ Uuid.is_v4 token = true
  /\ r !! "signupTimestamp" = Some (toDate t1)
  /\ r !! "failedLoginAttempts" = Some (VNum 0)
  /\ r !! "_id" = Some (VObjectId (primaryKey (env w) (keysIssued w)))
  /\ (exists salt, entropy (env w) (entropyDraws w) = Some salt
        /\ r !! "hash" = Some (VStr (salt ++ derive (env w) pw salt)))
  /\ r !! "name" = None /\ r !! "salt" = None
  /\ r !! "derived_key" = None /\ r !! "extra" = None.
Proof.
  intros Hok w' token t1. subst w'.
  set (expires := add (ms (signup_tokenExpiration config))
                      (clock (env w) (S (clockReads w)))).
  pose proof (legacy_save_cases config name email pw w) as Hs. simpl in Hs.
  fold t1 expires in Hs.
  destruct (entropy (env w) (entropyDraws w)) as [salt|];
    [|rewrite Hs in Hok; discriminate].
  destruct (Mongo.violated _ _ _); rewrite Hs in Hok |- *; [discriminate|].
  simpl in Hok. injection Hok as <-. cbn [fst snd store Mongo.docs Mongo.uniqueIdx].
  pose proof (v4_is_v4 (random (env w) (randomDraws w))) as Hv.
  split; [done|]. split; [|split].
  - intros H1 H2.
    assert (Hc1 : Mongo.canon (toDate t1) = toDate t1).
    { destruct (toDate_cases t1) as [-> | Hi]; [done|]. exfalso. apply H1.
      rewrite <- Hi. by simplify_map_eq. }
    assert (Hc2 : Mongo.canon (toDate expires) = toDate expires).
    { destruct (toDate_cases expires) as [-> | Hi]; [done|]. exfalso. apply H2.
      rewrite <- Hi. by simplify_map_eq. }
    apply stored_id. intros k v Hk.
    repeat (apply lookup_insert_Some in Hk as [[_ <-]|[_ Hk]]; [done|]).
    by rewrite lookup_empty in Hk.
  - intros Hinv. rewrite stored_lookup, Hinv. done.
  - simplify_map_eq. repeat split; try done. by exists salt.
Qed.

Lemma legacy_save_carol :
  (Legacy.save config0 "carol" "carol@x.com" "pw" world1).1 = Done None (JDoc carol).
Proof. compute_done. Qed.

Lemma legacy_save_record_witness :
  Mongo.docs (store (Legacy.save config0 "carol" "carol@x.com" "pw" world1).2)
  = (Mongo.docs (store world1) ++ [Mongo.stored carol])%list
  /\ Mongo.stored carol = carol
  /\ carol !! "username" = Some (VStr "carol")
  /\ carol !! "name" = None.
Proof.
  destruct (legacy_save_record config0 "carol" "carol@x.com" "pw" world1 carol
              legacy_save_carol)
    as (Hd & Hs & _ & _ & Hu & _ & _ & _ & _ & _ & _ & _ & Hn & _).
  split; [exact Hd|]. split; [|split; [exact Hu | exact Hn]].
  apply Hs; compute_done.
Defined.

Section AppendFacts.

Lemma find_app_miss {A} (p : A -> bool) (l : list A) (x : A) :
  p x = false -> List.find p (l ++ [x]) = List.find p l.
Proof.
  intros Hx. induction l as [|a l IH]; simpl; [by rewrite Hx|].
  by destruct (p a).
Qed.

Lemma filter_app_miss {A} (p : A -> bool) (l : list A) (x : A) :
  p x = false ->
  List.filter p (l ++ [x]) = List.filter p l
  /\ List.filter (fun y => negb (p y)) (l ++ [x])
     = (List.filter (fun y => negb (p y)) l ++ [x])%list.
Proof.
  intros Hx. rewrite !List.filter_app. simpl. rewrite Hx. simpl.
  by rewrite app_nil_r.
Qed.

End AppendFacts.

(** X14: the two variants keep the handle in different fields, and a
    record created by the older one is out of reach of the name
    operations.  After a successful create in the older variant, the
    stored copy of the record is found under [username] when no stored
    record had that handle; but for every name, [find] on [name] and
    [remove] answer as they did before the create, and [remove] leaves
    the new record in the collection. *)
Theorem legacy_record_unnamed config name email pw w r :
  (Legacy.save config name email pw w).1 = Done None (JDoc r) ->
  let w' := (Legacy.save config name email pw w).2 in
  ((forall d, d ∈ Mongo.docs (store w) -> field_is "username" name d = false) ->
   Legacy.find "username" name w' = (Done None (JDoc (Mongo.stored r)), w'))
  /\ (forall q, (find "name" q w').1 = (find "name" q w).1
                /\ (remove q w').1 = (remove q w).1
                /\ Mongo.stored r ∈ Mongo.docs (store (remove q w').2)).
Proof.
  intros Hok w'. subst w'.
  pose proof (legacy_save_cases config name email pw w) as Hs. simpl in Hs.
  destruct (Legacy.save config name email pw w) as [o w'].
  destruct (entropy (env w) (entropyDraws w)) as [salt|]; [|by inversion Hs; subst].
  match type of Hs with
  | match Mongo.violated _ ?u' _ with _ => _ end => set (u := u') in *
  end.
  destruct (Mongo.violated _ u _); [by inversion Hs; subst|].
  simpl in Hok. subst o. injection Hs as Hr ->. cbn [fst snd].
  subst r.
  assert (Hun : field_is "username" name (Mongo.stored u) = true).
  { rewrite field_is_stored. apply bool_decide_eq_true. unfold u.
    by simplify_map_eq. }
  assert (Hnn : forall q, field_is "name" q (Mongo.stored u) = false).
  { intros q. rewrite field_is_stored. apply bool_decide_eq_false. unfold u.
    by simplify_map_eq. }
  split.
  - intros Hfresh.
    match goal with |- Legacy.find _ _ ?W = _ => set (W1 := W) end.
    destruct (find_cases "username" name W1) as [_ ->]; [done|].
    cbn [W1 store Mongo.docs].
    rewrite (find_app_fresh _ _ (Mongo.stored u)); [done| |done].
    by apply find_none_forall, Forall_forall.
  - intros q.
    match goal with |- (find _ _ ?W).1 = _ /\ _ => set (W1 := W) end.
    destruct (find_cases "name" q W1) as [-> _]; [done|].
    destruct (find_cases "name" q w) as [-> _]; [done|].
    destruct (remove_run q W1) as [-> _].
    destruct (remove_run q w) as [-> _].
    cbn [fst snd W1 store with_store Mongo.docs].
    destruct (filter_app_miss (field_is "name" q) (Mongo.docs (store w))
                (Mongo.stored u) (Hnn q)) as [-> ->].
    rewrite find_app_miss by done.
    split; [done|]. split; [done|].
    apply elem_of_app. right. left.
Qed.

Lemma legacy_record_unnamed_witness :
  (find "name" "carol"
     (Legacy.save config0 "carol" "carol@x.com" "pw" world1).2).1
  = (find "name" "carol" world1).1
  /\ Mongo.stored carol
     ∈ Mongo.docs (store (remove "carol"
                  (Legacy.save config0 "carol" "carol@x.com" "pw" world1).2).2).
Proof.
  destruct (legacy_record_unnamed config0 "carol" "carol@x.com" "pw" world1 carol
              legacy_save_carol) as [_ H].
  destruct (H "carol") as (H1 & _ & H3). split; [exact H1 | exact H3].
Defined.

(** X15: an update given a record without a usable identifier (a
    record the serializer accepts whose [_id] is missing, [undefined] or
    [null]) never overwrites a stored record: the write is an insert,
    and either it is rejected and the collection stays as it was, or
    the record is appended and returned.  With [_id] missing or
    [undefined] the record is written under a fresh primary key, which
    is consumed whether the insert succeeds or not; with [_id: null] it
    is written as it is and no key is consumed, so that a second such
    update is rejected on the identifier. *)
Theorem update_without_id user w :
  Mongo.key "_id" user = VNull ->
  Mongo.serializable user = true ->
  let fresh := <["_id" := VObjectId (primaryKey (env w) (keysIssued w))]> user in
  let user' := written user w in
  let w' := (update user w).2 in
  (user !! "_id" = Some VNull -> user' = user /\ keysIssued w' = keysIssued w)
  /\ (user !! "_id" <> Some VNull ->
      user' = fresh /\ keysIssued w' = S (keysIssued w))
  /\ (((exists f, (update user w).1 = Done (Some (DuplicateKey f)) JUndefined)
       /\ store w' = store w)
      \/ ((update user w).1 = Done None (JDoc (Mongo.stored user'))
          /\ store w' = Mongo.mkCollection
                          (Mongo.docs (store w) ++ [Mongo.stored user'])
                          (Mongo.uniqueIdx (store w))))
  /\ (user !! "_id" = Some VNull ->
      (exists d, d ∈ Mongo.docs (store w) /\ Mongo.key "_id" d = VNull) ->
      (update user w).1 = Done (Some (DuplicateKey "_id")) JUndefined).
Proof.
  intros Hid Hser fresh user' w'. subst w'.
  assert (Hcases : user !! "_id" = Some VNull /\ lacks_id false user = false
                   \/ user !! "_id" <> Some VNull /\ lacks_id false user = true).
  { unfold Mongo.key in Hid. unfold lacks_id.
    destruct (user !! "_id") as [[]|]; simpl in Hid; try done; auto. }
  assert (Hw : user' = if lacks_id false user then fresh else user) by done.
  assert (Hx : exists x, user' !! "_id" = Some x
                         /\ Mongo.key "_id" user' = Mongo.canon x).
  { rewrite Hw. destruct Hcases as [[Hn ->]|[_ ->]].
    - exists VNull. unfold Mongo.key. by rewrite Hn.
    - eexists. unfold Mongo.key, fresh. rewrite lookup_insert_eq. done. }
  destruct Hx as (x & Hx & Hkx).
  assert (Hrun : update user w
    = (let '(err, r, c) := Mongo.insertOne user' (store w) in
       match err with
       | Some e => Done (Some e) JUndefined
       | None => Done None (of_found (List.find (Mongo.has_id x) (Mongo.docs c)))
       end,
       mkWorld (let '(_, _, c) := Mongo.insertOne user' (store w) in c)
               (env w) (clockReads w) (randomDraws w) (entropyDraws w)
               (if lacks_id false user then S (keysIssued w) else keysIssued w))).
  { unfold update, db_save, db_findOne, mbind, M_bind, mret, M_ret.
    rewrite collection_save_insert by done. cbn zeta. fold (written user w).
    fold user'.
    destruct (Mongo.insertOne user' (store w)) as [[[e|] r] c]; cbn [fst snd];
      [done|].
    rewrite Hx. cbn [default]. rewrite serializable_id_filter, findOne_id. done. }
  pose proof (insert_cases x user' (store w) Hx) as Hi.
  split; [|split; [|split]].
  - intros Hn. destruct Hcases as [[_ Hl]|[Hc _]]; [|done].
    rewrite Hw, Hrun, Hl. done.
  - intros Hn. destruct Hcases as [[Hc _]|[_ Hl]]; [done|].
    rewrite Hw, Hrun, Hl. done.
  - rewrite Hrun. unfold Mongo.insertOne in *.
    destruct (Mongo.violated _ _ _) as [f|]; cbn [fst snd store] in *.
    + left. split; [by exists f | done].
    + destruct Hi as (Hf & _ & _). cbn [Mongo.docs] in *. rewrite Hf.
      by right.
  - intros Hn (d & Hd & Hk). rewrite Hrun. unfold Mongo.insertOne.
    assert (Hclash : Mongo.clash "_id" user' (Mongo.docs (store w)) = true).
    { apply clash_intro with d; [done|]. rewrite Hk, Hkx.
      destruct Hcases as [[_ Hl]|[Hc _]]; [|done].
      rewrite Hw, Hl, Hn in Hx. by injection Hx as <-. }
    unfold Mongo.violated. cbn [List.find]. rewrite Hclash. done.
Qed.

Lemma update_without_id_witness :
  let nobody : doc := <["_id" := VNull]> (<["email" := VStr "n@x.com"]> ∅) in
  (update (delete "_id" alice) world1).1
  = Done (Some (DuplicateKey "name")) JUndefined
  /\ keysIssued (update (delete "_id" alice) world1).2 = 2%nat
  /\ keysIssued (update nobody world1).2 = 1%nat
  /\ (update nobody (update nobody world1).2).1
     = Done (Some (DuplicateKey "_id")) JUndefined.
Proof.
  intros nobody.
  destruct (update_without_id (delete "_id" alice) world1
              ltac:(compute_done) ltac:(compute_done))
    as (_ & Hk & _).
  destruct (update_without_id nobody world1
              ltac:(compute_done) ltac:(compute_done))
    as (Hn & _).
  destruct (update_without_id nobody (update nobody world1).2
              ltac:(compute_done) ltac:(compute_done))
    as (_ & _ & _ & Hdup).
  split; [compute_done|]. split; [|split].
  - rewrite (proj2 (Hk ltac:(compute_done))). compute_done.
  - rewrite (proj2 (Hn ltac:(compute_done))). compute_done.
  - apply Hdup; [compute_done|]. exists nobody. split; compute_done.
Defined.

(** X16: a token lifetime that is no duration adds nothing.  When the
    configured string starts with a character that is neither a digit
    nor a dot (so that no duration can be read from it), the record of a
    successful create has as its [signupTokenExpires] the second clock
    reading of the call itself; when the clock did not
    advance between the two readings the record breaks the invariant
    that the token expires after the sign-up instant.  Both variants. *)
Theorem save_unparsed_ttl config name email pw extra w c rest :
  signup_tokenExpiration config = String c rest ->
  Ms.is_digit c = false ->
  c <> "."%char ->
  let t1 := clock (env w) (clockReads w) in
  let t2 := clock (env w) (S (clockReads w)) in
  let expired r :=
    r !! "signupTimestamp" = Some (toDate t1)
    /\ r !! "signupTokenExpires" = Some (toDate t2)
    /\ (t2 <= t1 -> record_ok r = false) in
  (forall r, (save config name email pw extra w).1 = Done None (JDoc r) -> expired r)
  /\ (forall r, (Legacy.save config name email pw w).1 = Done None (JDoc r) ->
                expired r).
Proof.
  intros Hstr Hc _ t1 t2 expired.
  assert (Hms : ms (signup_tokenExpiration config) = None).
  { rewrite Hstr. unfold ms, Ms.parse.
    destruct (_ <? _); [done|]. cbn [Ms.digits]. by rewrite Hc. }
  assert (Hbad : forall r : doc,
            r !! "signupTimestamp" = Some (toDate t1) ->
            r !! "signupTokenExpires" = Some (toDate t2) ->
            t2 <= t1 -> record_ok r = false).
  { intros r H1 H2 Hle. unfold record_ok, toDate in *. rewrite H1, H2.
    repeat case_match; try done.
    simplify_eq. apply andb_false_intro1. apply Z.ltb_ge. lia. }
  split; intros r Hok.
  - pose proof (save_cases config name email pw extra w) as Hs. simpl in Hs.
    rewrite Hms in Hs. unfold add in Hs. simpl in Hs. rewrite Z.add_0_r in Hs.
    fold t1 t2 in Hs.
    destruct (entropy (env w) (entropyDraws w)) as [salt|];
      [|rewrite Hs in Hok; discriminate].
    destruct (Mongo.violated _ _ _); rewrite Hs in Hok; [discriminate|].
    simpl in Hok. injection Hok as <-.
    match goal with |- expired ?u => set (r := u) end.
    assert (Hr1 : r !! "signupTimestamp" = Some (toDate t1)).
    { unfold r. destruct (useExtra config); by simplify_map_eq. }
    assert (Hr2 : r !! "signupTokenExpires" = Some (toDate t2)).
    { unfold r. destruct (useExtra config); by simplify_map_eq. }
    split; [exact Hr1|]. split; [exact Hr2|]. by apply Hbad.
  - pose proof (legacy_save_cases config name email pw w) as Hs. simpl in Hs.
    rewrite Hms in Hs. unfold add in Hs. simpl in Hs. rewrite Z.add_0_r in Hs.
    fold t1 t2 in Hs.
    destruct (entropy (env w) (entropyDraws w)) as [salt|];
      [|rewrite Hs in Hok; discriminate].
    destruct (Mongo.violated _ _ _); rewrite Hs in Hok; [discriminate|].
    simpl in Hok. injection Hok as <-.
    match goal with |- expired ?u => set (r := u) end.
    assert (Hr1 : r !! "signupTimestamp" = Some (toDate t1))
      by (unfold r; by simplify_map_eq).
    assert (Hr2 : r !! "signupTokenExpires" = Some (toDate t2))
      by (unfold r; by simplify_map_eq).
    split; [exact Hr1|]. split; [exact Hr2|]. by apply Hbad.
Qed.

Lemma save_unparsed_ttl_witness :
  (save (mkConfig true false "soon") "alice" "alice@x.com" "s3cret!"
        VUndefined world0).1
  = Done None (JDoc (<["signupTokenExpires" := VDate 1700000000001]> alice))
  /\ (<["signupTokenExpires" := VDate 1700000000001]> alice) !! "signupTokenExpires"
     = Some (toDate (clock (env world0) (S (clockReads world0)))).
Proof.
  assert (Hr : (save (mkConfig true false "soon") "alice" "alice@x.com" "s3cret!"
                     VUndefined world0).1
               = Done None (JDoc (<["signupTokenExpires" := VDate 1700000000001]> alice)))
    by compute_done.
  split; [exact Hr|].
  destruct (save_unparsed_ttl (mkConfig true false "soon") "alice" "alice@x.com"
              "s3cret!" VUndefined world0 "s"%char "oon"
              eq_refl eq_refl ltac:(discriminate)) as [H _].
  destruct (H _ Hr) as (_ & H2 & _). exact H2.
Defined.

(** X17: the older variant's update fails silently.  Whenever the store
    rejects the write (the case in which [update] calls back with the
    duplicate-key error), the older variant calls back without error,
    handing out whatever the unchanged collection holds under the
    record's identifier: the record as it was before the call, or
    [null].  (Off the identifier [null], where the two drivers write
    the same record.) *)
Theorem legacy_update_silent user w f :
  (update user w).1 = Done (Some (DuplicateKey f)) JUndefined ->
  user !! "_id" <> Some VNull ->
  let id := default VUndefined (written user w !! "_id") in
  (Legacy.update user w).1
  = Done None (of_found (List.find (Mongo.has_id id) (Mongo.docs (store w))))
  /\ store (Legacy.update user w).2 = store w
  /\ store (update user w).2 = store w.
Proof.
  intros Hrej Hnn id. subst id.
  destruct (update_cases user w)
    as [(_ & Ho & _) | [(Hser & _ & Hst) | (_ & Ho & _)]]; [congruence| |congruence].
  pose proof (legacy_update_agree user w Hnn) as Hsame. rewrite Hst in Hsame.
  destruct (legacy_update_cases user w) as [(Hs & _) | (_ & H1 & _)];
    [congruence|].
  rewrite H1, Hsame, findOne_id. unfold written.
  by rewrite (written_by_agree user w Hnn).
Qed.

Lemma legacy_update_silent_witness :
  (Legacy.update (<["email" := VStr "alice@x.com"]> bob) world2).1
  = Done None (JDoc bob).
Proof.
  destruct (legacy_update_silent (<["email" := VStr "alice@x.com"]> bob) world2
              "email" ltac:(compute_done) ltac:(compute_done)) as [-> _].
  rewrite world2_docs. compute_done.
Defined.
